(** * The JOS kernel monitor (kern/monitor.c): permission codec, page-table
      inspection and mutation, stack unwinding and single-step control.

    Machine integers are [Z] with the 32-bit wrap-around written out,
    memory is a finite map from addresses to the 32-bit word stored there,
    and each console line a command prints is one constructor of a small
    output type, so that the sequence of lines can be counted and compared.
    Colour and attribute escapes (set_fgcolor, ATTR_bold, ATTR_OFF) carry
    no data and are not part of the output model. *)

From Stdlib Require Import ZArith Lia Ascii String List Bool.
From stdpp Require Import base option list gmap.

Local Open Scope Z_scope.

(** ** Machine words *)

Definition wrap32 (x : Z) : Z := x mod 2 ^ 32.
Definition wrap16 (x : Z) : Z := x mod 2 ^ 16.

(** [x & mask] used as a C truth value. *)
Definition tst (x mask : Z) : bool := negb (Z.land x mask =? 0).

(** ** Paging constants and macros *)

Module Mmu.

(** Modelled from the spec: inc/mmu.h is not among the sources; the nine
    attribute bits carry the values written next to the cases of
    [char2perm] (Present 0x1 ... Global 0x100). *)
Definition PTE_P : Z := 0x1.
Definition PTE_W : Z := 0x2.
Definition PTE_U : Z := 0x4.
Definition PTE_PWT : Z := 0x8.
Definition PTE_PCD : Z := 0x10.
Definition PTE_A : Z := 0x20.
Definition PTE_D : Z := 0x40.
Definition PTE_PS : Z := 0x80.
Definition PTE_G : Z := 0x100.

(** Modelled from the spec: inc/mmu.h is not among the sources; a linear
    address splits into a 10-bit directory index, a 10-bit table index
    (the middle bits) and a 12-bit page offset; a small page has 4096
    bytes and a large page covers one whole directory slot. *)
Definition PGSIZE : Z := 4096.
Definition LPGSIZE : Z := 4194304.
Definition PTXSHIFT : Z := 12.
Definition PDXSHIFT : Z := 22.

Definition PDX (la : Z) : Z := Z.land (Z.shiftr la PDXSHIFT) 0x3FF.
Definition PTX (la : Z) : Z := Z.land (Z.shiftr la PTXSHIFT) 0x3FF.
Definition PGOFF (la : Z) : Z := Z.land la 0xFFF.

(** Modelled from the spec: the PGADDR macro of inc/mmu.h is not among the
    sources; it assembles an address from a directory index, a table index
    and an offset by shifting and or-ing them, in 32 bits. *)
Definition PGADDR (d t o : Z) : Z :=
  wrap32 (Z.lor (Z.lor (Z.shiftl d PDXSHIFT) (Z.shiftl t PTXSHIFT)) o).

(** Address part of an entry: [pte & ~0xFFF]. *)
Definition PTE_ADDR (pte : Z) : Z := Z.land pte 0xFFFFF000.

(** [#define PERM(entry) (entry & 0xFFF)] *)
Definition PERM (entry : Z) : Z := Z.land entry 0xFFF.

(** Modelled from the spec: inc/memlayout.h is not among the sources;
    KERNBASE is the virtual address at which physical memory is remapped. *)
Definition KERNBASE : Z := 0xF0000000.

(** Modelled from the spec: the KADDR macro of kern/pmap.h is not among the
    sources; the physical memory accessor maps a physical address to the
    directly dereferenceable kernel address. *)
Definition KADDR (pa : Z) : Z := wrap32 (pa + KERNBASE).

Definition ROUNDDOWN (a n : Z) : Z := a - a mod n.

End Mmu.
Export Mmu.

(** ** Results of code that may panic *)

Inductive result (A : Type) : Type :=
| Ok (a : A)
| Panic (msg : string).
Arguments Ok {A} a.
Arguments Panic {A} msg.

Definition bind {A B} (r : result A) (k : A -> result B) : result B :=
  match r with
  | Ok a => k a
  | Panic msg => Panic msg
  end.

Notation "'let*' x ':=' r 'in' k" := (bind r (fun x => k))
  (at level 10, x name, r at level 100, k at level 200).

(** ** PermissionCodec: char2perm, perm2str, str2perm *)

Module Codec.

Definition NUL : ascii := Ascii.zero.

(** [char2perm]: the switch over the nine capital letters; the default
    case returns -1, which is 0xFFFFFFFF in the uint32_t return type. *)
Definition char2perm (c : ascii) : Z :=
  if Ascii.eqb c "G"%char then PTE_G
  else if Ascii.eqb c "S"%char then PTE_PS
  else if Ascii.eqb c "D"%char then PTE_D
  else if Ascii.eqb c "A"%char then PTE_A
  else if Ascii.eqb c "C"%char then PTE_PCD
  else if Ascii.eqb c "T"%char then PTE_PWT
  else if Ascii.eqb c "U"%char then PTE_U
  else if Ascii.eqb c "W"%char then PTE_W
  else if Ascii.eqb c "P"%char then PTE_P
  else wrap32 (-1).

(** [static const char* perm_string = "PWUTCADSG";] *)
Definition perm_string : list ascii := list_ascii_of_string "PWUTCADSG".

(** The loop of [perm2str]: for i = n-1 down to 0 it stores the i-th
    mnemonic or a dash at [target + 8 - i]; the list is the target buffer
    read from index [9 - n] on. *)
Fixpoint perm2str_loop (n : nat) (perm : Z) : list ascii :=
  match n with
  | O => []
  | S i =>
      (if tst perm (Z.shiftl 1 (Z.of_nat i))
       then nth i perm_string NUL
       else "-"%char) :: perm2str_loop i perm
  end.

(** [perm2str]: whether the warning was printed, and the nine characters
    written to the target. *)
Definition perm2str (perm : Z) : bool * list ascii :=
  if 0x200 <=? perm
  then (true, perm2str_loop 9 (wrap32 (perm - 0x200)))
  else (false, perm2str_loop 9 perm).

(** The while loop of [str2perm]: stops at the terminating NUL. *)
Fixpoint str2perm_loop (str : list ascii) (perm : Z) : Z :=
  match str with
  | [] => perm
  | c :: rest =>
      if Ascii.eqb c NUL then perm
      else str2perm_loop rest (Z.lor perm (char2perm c))
  end.

(** [str2perm]: the accumulator is a uint32_t, the test [perm < 0] is made
    on that unsigned value, and the Present bit is masked off at the end. *)
Definition str2perm (str : list ascii) : result Z :=
  let perm := str2perm_loop str 0 in
  if perm <? 0 then Panic "Wrong perm-character"
  else Ok (Z.land perm (wrap32 (Z.lnot (char2perm "P"%char)))).

(** [strncpy(dst, src, n)]: copies up to the NUL of [src], at most [n]
    characters, and pads the rest of the [n] cells with NUL. *)
Fixpoint strncpy (n : nat) (src : list ascii) : list ascii :=
  match n with
  | O => []
  | S k =>
      match src with
      | [] => NUL :: strncpy k []
      | c :: rest =>
          if Ascii.eqb c NUL then NUL :: strncpy k []
          else c :: strncpy k rest
      end
  end.

(** The letters of the mnemonic alphabet. *)
Definition is_mnemonic (c : ascii) : bool := existsb (Ascii.eqb c) perm_string.

(** The characters [perm2str] may write. *)
Definition in_alphabet (c : ascii) : bool := is_mnemonic c || Ascii.eqb c "-"%char.

(** The mnemonic letters of an encoding, the dashes left out. *)
Definition letters (s : list ascii) : list ascii :=
  filter (fun c => Ascii.eqb c "-"%char = false) s.

End Codec.
Export Codec.

(** ** The machine: active page directory and memory *)

(** [pgdir] is the kernel address of the active page directory, that is
    [curenv ? curenv->env_pgdir : kern_pgdir], resolved by the caller.
    [mem] gives the 32-bit word stored at an address (page-directory and
    page-table entries, stack words); [vbyte] gives the byte a plain load
    from a virtual address delivers. *)
Record Machine : Type := mkMachine {
  pgdir : Z;
  mem : gmap Z Z;
  vbyte : Z -> Z
}.

Definition read32 (m : Machine) (a : Z) : Z := wrap32 (default 0 (mem m !! a)).

Definition write32 (m : Machine) (a v : Z) : Machine :=
  {| pgdir := pgdir m; mem := <[a := v]> (mem m); vbyte := vbyte m |}.

(** ** AddressSpaceWalker *)

Module Walker.

(** [&pgdir[PDX(va)]] *)
Definition PDE_PTR (m : Machine) (va : Z) : Z := wrap32 (pgdir m + 4 * PDX va).

(** [#define PDE(pgdir,va) (pgdir[(PDX(va))])] *)
Definition PDE (m : Machine) (va : Z) : Z := read32 m (PDE_PTR m va).

(** The PTE_PTR macro: KADDR(PTE_ADDR(PDE(pgdir,va))), taken as a pointer
    to entries, plus PTX(va). *)
Definition PTE_PTR (m : Machine) (va : Z) : Z :=
  wrap32 (KADDR (PTE_ADDR (PDE m va)) + 4 * PTX va).

(** The PTE macro: the entry PTE_PTR(pgdir,va) points to. *)
Definition PTE (m : Machine) (va : Z) : Z := read32 m (PTE_PTR m va).

(** Modelled from the spec: pgdir_walk of kern/pmap.c is not among the
    sources; called with allocate = false it returns nothing when the
    governing directory entry is absent, and otherwise the slot of the
    second-level table indexed by the middle bits of the address. *)
Definition pgdir_walk (m : Machine) (va : Z) : option Z :=
  if tst (PDE m va) PTE_P then Some (PTE_PTR m va) else None.

End Walker.
Export Walker.

(** ** Console output *)

Inductive Observation : Type :=
| Warning                                   (* warn("unexcepted permission!") *)
| PtePerm (perm : Z)                        (* "pte perm:0x%03x" *)
| Mapped (pse : bool) (va pa : Z) (perm : list ascii)
                                            (* "(PSE_ON|PSE_OFF) VA: .., PA: .., PERM: .." *)
| Unmapped (va : Z)                         (* "VA: .., PA: No Mapping", "[VA .., PA No-mapping]: None" *)
| MappedByte (va : option Z) (pa byte : Z)  (* "[VA .., PA ..]: ..", "[PA ..]: .." *)
| Truncated                                 (* "Target memory out of range / Only dump to TOP." *)
| NewMapping (va pa perm : Z)               (* "New mapping = VA: .., PA: .., perm: .." *)
| NoSuchMapping.                            (* "No such mapping" *)

Definition is_Mapped (o : Observation) : bool :=
  match o with Mapped _ _ _ _ => true | _ => false end.

Definition is_Unmapped (o : Observation) : bool :=
  match o with Unmapped _ => true | _ => false end.

(** The lines [perm2str] and the following cprintf produce. *)
Definition print_mapped (pse : bool) (va pa perm : Z) : list Observation :=
  let '(w, s) := perm2str perm in
  (if w then [Warning] else []) ++ [Mapped pse va pa s].

(** One turn of a loop body: go on with a new loop variable, or return. *)
Inductive turn : Type :=
| Continue (next : Z) (out : list Observation)
| Return (ret : Z) (out : list Observation).

(** ** RangeInspector: showmap *)

Module Showmap.

(** The body of the for loop of [mon_showmap] at [vstart]. *)
Definition showmap_body (m : Machine) (vstart : Z) : turn :=
  let pde := PDE m vstart in
  if tst pde PTE_P then
    if tst pde PTE_PS then
      let pvaddr := Z.lor (PTE_ADDR pde) (Z.shiftl (PTX vstart) PTXSHIFT) in
      Continue (wrap32 (vstart + LPGSIZE))
               (print_mapped true vstart pvaddr (PERM pde))
    else
      let pte := PTE m vstart in
      if tst pte PTE_P then
        Continue (wrap32 (vstart + PGSIZE))
                 (PtePerm (PERM pte)
                  :: print_mapped false vstart (PTE_ADDR pde) (PERM pte))
      else Continue vstart []
  else Return 1 [Unmapped vstart].

(** [for(; vstart <= vend; ) body]; [None] as return code: out of fuel. *)
Fixpoint showmap_loop (fuel : nat) (m : Machine) (vstart vend : Z)
  : list Observation * option Z :=
  match fuel with
  | O => ([], None)
  | S f =>
      if vstart <=? vend then
        match showmap_body m vstart with
        | Continue next out =>
            let '(rest, r) := showmap_loop f m next vend in (out ++ rest, r)
        | Return ret out => (out, Some ret)
        end
      else ([], Some 0)
  end.

(** [mon_showmap] from the parsed arguments on: [start] and [len] are the
    values strtol returned ([len] is 1 when no length was given). *)
Definition mon_showmap (fuel : nat) (m : Machine) (start len : Z)
  : list Observation * option Z :=
  let vstart := wrap32 start in
  let vlen := wrap32 len in
  let vend := wrap32 (vstart + vlen) in
  let vstart := ROUNDDOWN vstart PGSIZE in
  showmap_loop fuel m vstart vend.

End Showmap.
Export Showmap.

(** ** PermissionMutator: setperm *)

Module Setperm.

(** [mon_setperm] from the parsed arguments on: return code, memory after
    the call and the lines printed; the call may panic inside str2perm. *)
Definition mon_setperm (m : Machine) (addr : Z) (arg : list ascii)
  : result (Z * Machine * list Observation) :=
  let va := wrap32 addr in
  let permission := strncpy 9 arg ++ [NUL] in
  let* p := str2perm permission in
  let perm := wrap16 p in
  let pde := PDE_PTR m va in
  if tst (read32 m pde) PTE_PS then
    if tst (read32 m pde) PTE_P then
      let m' := write32 m pde
                  (Z.lor (Z.lor (Z.lor (Z.land (read32 m pde) (wrap32 (Z.lnot 0xFFF)))
                                       perm) PTE_P) PTE_PS) in
      Ok (0, m', [NewMapping va
                    (Z.lor (Z.lor (PTE_ADDR (read32 m' pde))
                                  (Z.shiftl (PTX va) PTXSHIFT)) (PGOFF va))
                    (PERM (read32 m' pde))])
    else Ok (1, m, [NoSuchMapping])
  else
    match pgdir_walk m va with
    | Some pte =>
        if tst (read32 m pte) PTE_P then
          let m' := write32 m pte
                      (Z.lor (Z.lor (Z.land (read32 m pte) (wrap32 (Z.lnot 0xFFF)))
                                    (Z.land perm 0xFFF)) PTE_P) in
          Ok (0, m', [NewMapping va
                        (Z.lor (PTE_ADDR (read32 m' pte)) (PGOFF va))
                        (PERM (read32 m' pte))])
        else Ok (1, m, [NoSuchMapping])
    | None => Ok (1, m, [NoSuchMapping])
    end.

End Setperm.
Export Setperm.

(** ** RangeInspector: dumpmem *)

Module Dumpmem.

(** [for (; mstart < next; ++mstart) cprintf(...)]: the lines printed. The
    loop leaves [mstart] at [Z.max mstart next]. *)
Definition for_bytes (mstart next : Z) (line : Z -> Observation)
  : list Observation :=
  map line (seqZ mstart (next - mstart)).

Definition MIN (a b : Z) : Z := if a <? b then a else b.

(** The body of the while loop of the virtual mode at [mstart]: the value
    of [mstart] afterwards and the lines printed. *)
Definition dumpmem_body (m : Machine) (mstart mend : Z) : Z * list Observation :=
  if tst (PDE m mstart) PTE_PS then
    if tst (PDE m mstart) PTE_P then
      let next := MIN (PGADDR (PDX mstart) (PTX mstart + 1) 0) mend in
      (Z.max mstart next,
       for_bytes mstart next (fun a =>
         MappedByte (Some a)
           (Z.lor (Z.lor (PTE_ADDR (PDE m a)) (Z.shiftl (PTX a) PTXSHIFT)) (PGOFF a))
           (vbyte m a)))
    else (mstart, [Unmapped mstart])
  else
    match pgdir_walk m mstart with
    | None =>
        let next := MIN (PGADDR (PDX mstart + 1) 0 0) mend in
        (Z.max mstart next, for_bytes mstart next Unmapped)
    | Some pte =>
        let next := MIN (PGADDR (PDX mstart) (PTX mstart + 1) 0) mend in
        if negb (tst (read32 m pte) PTE_P) then
          (Z.max mstart next, for_bytes mstart next Unmapped)
        else
          (Z.max mstart next,
           for_bytes mstart next (fun a =>
             MappedByte (Some a)
               (Z.lor (PTE_ADDR (read32 m pte)) (PGOFF a)) (vbyte m a)))
    end.

(** [while (mstart < mend) body]; [None] as return code: out of fuel. *)
Fixpoint dumpmem_loop (fuel : nat) (m : Machine) (mstart mend : Z)
  : list Observation * option Z :=
  match fuel with
  | O => ([], None)
  | S f =>
      if mstart <? mend then
        let '(next, out) := dumpmem_body m mstart mend in
        let '(rest, r) := dumpmem_loop f m next mend in
        (out ++ rest, r)
      else ([], Some 0)
  end.

(** [mon_dumpmem] from the parsed arguments on: [phys] is set by -p. *)
Definition mon_dumpmem (fuel : nat) (m : Machine) (phys : bool) (start len : Z)
  : list Observation * option Z :=
  let mstart := wrap32 start in
  let mlen := wrap32 len in
  let mend := wrap32 (mstart + mlen) in
  if phys then
    let top := wrap32 (Z.lnot KERNBASE + 1) in
    let '(mend, notice) :=
      if top <? mend then (top, [Truncated]) else (mend, []) in
    (notice ++ for_bytes mstart mend (fun a =>
                 MappedByte None a (vbyte m (KADDR a))),
     Some 0)
  else dumpmem_loop fuel m mstart mend.

End Dumpmem.
Export Dumpmem.

(** ** StackUnwinder: backtrace *)

Module Backtrace.

(** What [debuginfo_eip] fills in. *)
Record Eipdebuginfo : Type := mkInfo {
  eip_file : string;
  eip_line : Z;
  eip_fn_name : string;
  eip_fn_namelen : Z;
  eip_fn_addr : Z
}.

(** The first line printed for a frame: ebp, eip and four argument words. *)
Record StackFrame : Type := mkFrame {
  sf_ebp : Z;
  sf_eip : Z;
  sf_args : list Z
}.

(** The second line: file, line, function name and offset into it. *)
Record SymbolLine : Type := mkSym {
  sl_file : string;
  sl_line : Z;
  sl_fn : string;
  sl_offset : Z
}.

Section Unwind.

(** The external resolver. *)
Variable debuginfo_eip : Z -> Eipdebuginfo.

(** One iteration of the while loop, for a non-zero [ebp]. *)
Definition backtrace_frame (m : Machine) (ebp : Z) : StackFrame * SymbolLine :=
  let eip := read32 m (wrap32 (ebp + 4)) in
  let args := wrap32 (ebp + 8) in
  let frame :=
    mkFrame ebp eip (map (fun i => read32 m (wrap32 (args + 4 * i))) [0; 1; 2; 3]) in
  let info := debuginfo_eip eip in
  (frame,
   mkSym (eip_file info) (eip_line info)
         (substring 0 (Z.to_nat (eip_fn_namelen info)) (eip_fn_name info))
         (wrap32 (eip - eip_fn_addr info))).

(** [while (ebp) { ...; ebp = *(uint32_t * )ebp; }]; [None]: out of fuel. *)
Fixpoint backtrace_loop (fuel : nat) (m : Machine) (ebp : Z)
  : option (list (StackFrame * SymbolLine)) :=
  match fuel with
  | O => None
  | S f =>
      if ebp =? 0 then Some []
      else
        match backtrace_loop f m (read32 m ebp) with
        | Some rest => Some (backtrace_frame m ebp :: rest)
        | None => None
        end
  end.

(** [mon_backtrace], [ebp] being what read_ebp() returned: the frames
    printed and the return code. *)
Definition mon_backtrace (fuel : nat) (m : Machine) (ebp : Z)
  : option (list (StackFrame * SymbolLine) * Z) :=
  match backtrace_loop fuel m ebp with
  | Some frames => Some (frames, 0)
  | None => None
  end.

End Unwind.

(** A frame-pointer chain fp0 -> fp1 -> ... -> 0: the first word of each
    frame holds the next frame pointer, and the last one holds zero. *)
Inductive fp_chain (m : Machine) : Z -> list Z -> Prop :=
| fp_chain_end : fp_chain m 0 []
| fp_chain_next fp rest :
    fp <> 0 -> fp_chain m (read32 m fp) rest -> fp_chain m fp (fp :: rest).

End Backtrace.
Export Backtrace.

(** ** StepController: step and continue *)

Module Step.

(** Modelled from the spec: struct Trapframe of inc/trap.h is not among the
    sources; the trap context carries the trap number, the saved flags and
    the saved code segment, whose low two bits are the privilege level;
    [tf_other] stands for the remaining saved words. *)
Record Trapframe : Type := mkTrapframe {
  tf_trapno : Z;
  tf_cs : Z;
  tf_eflags : Z;
  tf_other : list Z
}.

(** Modelled from the spec: the trap numbers of inc/trap.h and the flag
    mask of inc/mmu.h are not among the sources; debug and breakpoint are
    exceptions 1 and 3, and the single-step trap flag is bit 8 of the
    flags register. *)
Definition T_DEBUG : Z := 1.
Definition T_BRKPT : Z := 3.
Definition FL_TF : Z := 0x100.

(** The gate shared by both commands:
    [tf && (trapno == T_DEBUG || trapno == T_BRKPT) && ((tf_cs & 3) == 3)]. *)
Definition from_user_debug (tf : option Trapframe) : bool :=
  match tf with
  | None => false
  | Some t =>
      ((tf_trapno t =? T_DEBUG) || (tf_trapno t =? T_BRKPT))
      && (Z.land (tf_cs t) 3 =? 3)
  end.

Definition set_eflags (t : Trapframe) (fl : Z) : Trapframe :=
  {| tf_trapno := tf_trapno t; tf_cs := tf_cs t;
     tf_eflags := fl; tf_other := tf_other t |}.

(** [mon_step]: return code and the trap frame afterwards. *)
Definition mon_step (tf : option Trapframe) : Z * option Trapframe :=
  if negb (from_user_debug tf) then (0, tf)
  else (-1, option_map (fun t => set_eflags t (Z.lor (tf_eflags t) FL_TF)) tf).

(** [mon_continue]: return code and the trap frame afterwards. *)
Definition mon_continue (tf : option Trapframe) : Z * option Trapframe :=
  if negb (from_user_debug tf) then (0, tf)
  else (-1, option_map
              (fun t => set_eflags t (Z.land (tf_eflags t) (wrap32 (Z.lnot FL_TF))))
              tf).

(** What the loop of [monitor] makes of a return code: a negative one
    leaves the monitor and resumes the trapped context. *)
Inductive Signal : Type := Ignored | Resume.

Definition signal (ret : Z) : Signal := if ret <? 0 then Resume else Ignored.

End Step.
Export Step.

(** ** Mappings the statements speak about *)

(** An existing present mapping for [va], as [mon_setperm] finds it: a
    present superpage directory entry, or a present leaf entry under a
    present directory entry without the Superpage bit. The flag tells
    which, the address is that of the entry. *)
Inductive present_mapping (m : Machine) (va : Z) : bool -> Z -> Prop :=
| present_superpage :
    Z.testbit (PDE m va) 7 = true -> Z.testbit (PDE m va) 0 = true ->
    present_mapping m va true (PDE_PTR m va)
| present_leaf :
    Z.testbit (PDE m va) 7 = false -> Z.testbit (PDE m va) 0 = true ->
    Z.testbit (PTE m va) 0 = true ->
    present_mapping m va false (PTE_PTR m va).

(** The step of [mon_showmap] at [va] has size [step]: a present superpage
    for the large size, a present leaf for the small one. *)
Definition mapped_with (m : Machine) (step va : Z) : Prop :=
  (step = LPGSIZE /\ Z.testbit (PDE m va) 0 = true /\ Z.testbit (PDE m va) 7 = true)
  \/ (step = PGSIZE /\ Z.testbit (PDE m va) 0 = true /\ Z.testbit (PDE m va) 7 = false
      /\ Z.testbit (PTE m va) 0 = true).

(** Number of Mapped lines in an output. *)
Definition count_Mapped (out : list Observation) : Z :=
  Z.of_nat (length (List.filter is_Mapped out)).

(** No Unmapped line in an output. *)
Definition no_Unmapped (out : list Observation) : bool :=
  forallb (fun o => negb (is_Unmapped o)) out.

(** A line of showmap that speaks of whole pages and shows the letters
    its branch tested: page-aligned addresses, the Present letter in the
    last place, and the Superpage letter in the second place of a line
    printed for a superpage. *)
Definition page_line (o : Observation) : Prop :=
  match o with
  | Mapped pse va pa perm =>
      PGOFF va = 0 /\ PGOFF pa = 0 /\ nth 8 perm NUL = "P"%char
      /\ (pse = true -> nth 1 perm NUL = "S"%char)
  | Unmapped va => PGOFF va = 0
  | _ => True
  end.

(** [ceil (a / b)] for positive [b]. *)
Definition ceil_div (a b : Z) : Z := (a + b - 1) / b.

(** ** Concrete machines *)

Module Examples.

(** A page directory at 0xF0110000. Slot 0 points to a page table at
    physical 0x200000 whose entries 1 and 2 map the pages 0x1000 and
    0x2000 to the frames 0x345000 and 0x346000 (Present, Writable) and
    whose entry 3 is empty; slot 1 is a present superpage for 0x400000;
    slot 2 has the Superpage bit but is not present. *)
Definition demo : Machine :=
  mkMachine 0xF0110000
    (<[0xF0110000 := 0x00200007]>
     (<[0xF0110004 := 0x00800083]>
      (<[0xF0110008 := 0x00C00082]>
       (<[0xF0200004 := 0x00345003]>
        (<[0xF0200008 := 0x00346003]> ∅)))))
    (fun _ => 0).

(** A stack with two frames: 0xF010FF00 (innermost), whose saved frame
    pointer is 0xF010FF40, whose saved frame pointer is zero. *)
Definition stack : Machine :=
  mkMachine 0xF0110000
    (<[0xF010FF00 := 0xF010FF40]>
     (<[0xF010FF04 := 0xF0100A10]>
      (<[0xF010FF08 := 1]>
       (<[0xF010FF40 := 0]>
        (<[0xF010FF44 := 0xF0100B20]> ∅)))))
    (fun _ => 0).

(** A corrupt stack: the frame at 0xF010FE00 points to the frame at
    0xF010FE20, whose saved frame pointer points back to the first. *)
Definition cyclic_stack : Machine :=
  mkMachine 0xF0110000
    (<[0xF010FE00 := 0xF010FE20]>
     (<[0xF010FE20 := 0xF010FE00]> ∅))
    (fun _ => 0).

(** A resolver that knows no symbol. *)
Definition no_symbols (eip : Z) : Eipdebuginfo :=
  mkInfo "<unknown>" 0 "<unknown>" 9 eip.

End Examples.

(** The line for one byte address, read off the paging structures: the
    byte with its physical address where a present superpage or a present
    leaf translates the address, and "No-mapping" elsewhere. *)
Definition translate_byte (m : Machine) (b : Z) : Observation :=
  if Z.testbit (PDE m b) 7 then
    if Z.testbit (PDE m b) 0 then
      MappedByte (Some b)
        (Z.lor (Z.lor (PTE_ADDR (PDE m b)) (Z.shiftl (PTX b) PTXSHIFT)) (PGOFF b))
        (vbyte m b)
    else Unmapped b
  else if Z.testbit (PDE m b) 0 then
    if Z.testbit (PTE m b) 0 then
      MappedByte (Some b) (Z.lor (PTE_ADDR (PTE m b)) (PGOFF b)) (vbyte m b)
    else Unmapped b
  else Unmapped b.

(** An address at which the loop of the virtual mode advances: it is not
    in the last page of its page table, and its directory entry does not
    carry the Superpage bit without the Present bit. *)
Definition advances (m : Machine) (b : Z) : Prop :=
  PTX b < 1023
  /\ ~ (Z.testbit (PDE m b) 7 = true /\ Z.testbit (PDE m b) 0 = false).

(** ** Argument handling of dumpmem *)

Module DumpmemArgs.

Definition is_physical_option (a : string) : bool :=
  String.eqb a "-p" || String.eqb a "--physical".

Definition is_virtual_option (a : string) : bool :=
  String.eqb a "-v" || String.eqb a "--virtual".

(** One of the four option strings. *)
Definition is_option (a : string) : bool :=
  is_physical_option a || is_virtual_option a.

(** The first for loop over argv[i], i < argc, entered at index [i] with
    the arguments from there on: the index it breaks at and the value of
    [phys], or nothing when no option was recognised. *)
Fixpoint find_option (i : nat) (args : list string) : option (nat * bool) :=
  match args with
  | [] => None
  | a :: rest =>
      if is_physical_option a then Some (i, true)
      else if is_virtual_option a then Some (i, false)
      else find_option (S i) rest
  end.

(** [for (j = i; j < argc - 1; ++j) argv[j] = argv[j + 1];]: the slots
    from [i] on take their right neighbour, the last slot keeps its value. *)
Definition shift_args (i : nat) (argv : list string) : list string :=
  take i argv ++ drop (S i) argv ++ drop (length argv - 1) argv.

(** The head of [mon_dumpmem] up to the two strtol calls: the value of
    [phys] and the strings argv[1] and argv[2] handed to strtol, or nothing
    when the usage text is printed and 1 returned. *)
Definition dumpmem_args (argv : list string) : option (bool * string * string) :=
  if Nat.eqb (length argv) 4 then
    match find_option 1 (drop 1 argv) with
    | None => None
    | Some (i, phys) =>
        let argv := shift_args i argv in
        match argv !! 1%nat, argv !! 2%nat with
        | Some a, Some b => Some (phys, a, b)
        | _, _ => None
        end
    end
  else if negb (Nat.eqb (length argv) 3) then None
  else
    match argv !! 1%nat, argv !! 2%nat with
    | Some a, Some b => Some (false, a, b)
    | _, _ => None
    end.

End DumpmemArgs.
Export DumpmemArgs.

(** ** The command interpreter: runcmd *)

Module Runcmd.

(** [#define WHITESPACE "\t\r\n "] *)
Definition WHITESPACE : list ascii :=
  ["009"%char; "013"%char; "010"%char; " "%char].

(** [strchr(WHITESPACE, c)] as a truth value, for a character that is not NUL. *)
Definition strchr_ws (c : ascii) : bool := existsb (Ascii.eqb c) WHITESPACE.

Definition MAXARGS : nat := 16.

(** [while ( *buf && strchr(WHITESPACE, *buf)) *buf++ = 0;]: the buffer
    from the position reached on. *)
Fixpoint gobble (buf : list ascii) : list ascii :=
  match buf with
  | [] => []
  | c :: rest =>
      if negb (Ascii.eqb c NUL) && strchr_ws c then gobble rest else buf
  end.

(** [while ( *buf && !strchr(WHITESPACE, *buf)) buf++;]: the characters
    passed, which are the argument once its end is overwritten with NUL,
    and the buffer from the position reached on. *)
Fixpoint scan_arg (buf : list ascii) : list ascii * list ascii :=
  match buf with
  | [] => ([], [])
  | c :: rest =>
      if negb (Ascii.eqb c NUL) && negb (strchr_ws c)
      then let '(arg, after) := scan_arg rest in (c :: arg, after)
      else ([], buf)
  end.

Inductive parsed : Type :=
| Parsed (argv : list (list ascii))
| TooMany.

(** The [while (1)] loop that fills argv; argc is the length of [argv].
    [None]: out of fuel. *)
Fixpoint parse_loop (fuel : nat) (buf : list ascii) (argv : list (list ascii))
  : option parsed :=
  match fuel with
  | O => None
  | S f =>
      match gobble buf with
      | [] => Some (Parsed argv)
      | c :: rest =>
          if Ascii.eqb c NUL then Some (Parsed argv)
          else if Nat.eqb (length argv) (MAXARGS - 1) then Some TooMany
          else
            let '(arg, after) := scan_arg (c :: rest) in
            parse_loop f after (argv ++ [arg])
      end
  end.

(** The functions the command table points to. *)
Inductive handler : Type :=
| Help | Kerninfo | Backtrace_ | Clear | Rainbow | Cpuid
| Showmap_ | Setperm_ | Dumpmem_ | Step_ | Continue_.

(** [static struct Command commands[]]: name, description, function. *)
Definition commands : list (string * string * handler) :=
  [ ("help", "Display this list of commands", Help);
    ("kerninfo", "Display information about the kernel", Kerninfo);
    ("backtrace", "Backtrace current function callstack", Backtrace_);
    ("clear", "Clear the console", Clear);
    ("rainbow", "Test the colored console", Rainbow);
    ("cpuid", "CPUID output in console", Cpuid);
    ("showmap", "Show the mappings between given virtual memory range", Showmap_);
    ("setperm", "Set the permission bits of a given mapping", Setperm_);
    ("dumpmem", "Dump the content of a given virtual/physical memory range", Dumpmem_);
    ("step", "Single-steppedly execute the following instruction", Step_);
    ("s", "Single-steppedly execute the following instruction", Step_);
    ("continue", "continue execution", Continue_);
    ("c", "continue execution", Continue_) ]%string.

(** The lookup loop: the function of the first entry whose name equals
    argv[0]. *)
Fixpoint lookup_command (name : string) (table : list (string * string * handler))
  : option handler :=
  match table with
  | [] => None
  | (n, _, f) :: rest =>
      if String.eqb name n then Some f else lookup_command name rest
  end.

(** What [runcmd] does with a line, up to the call of the command: it
    returns 0 at once (empty line; too many arguments; unknown command,
    with the name it prints), or calls a function of the table with argc
    and argv. *)
Inductive dispatch : Type :=
| Nothing
| TooManyArguments
| UnknownCommand (name : list ascii)
| Invoke (f : handler) (argc : nat) (argv : list (list ascii)).

(** [runcmd]: the loop is run with one unit of fuel per character of the
    line and one more, which always suffices. *)
Definition runcmd (buf : list ascii) : option dispatch :=
  match parse_loop (S (length buf)) buf [] with
  | None => None
  | Some TooMany => Some TooManyArguments
  | Some (Parsed []) => Some Nothing
  | Some (Parsed (name :: args)) =>
      match lookup_command (string_of_list_ascii name) commands with
      | Some f => Some (Invoke f (length (name :: args)) (name :: args))
      | None => Some (UnknownCommand name)
      end
  end.

(** [mon_help]: the name and description printed on each line, and the
    return code. *)
Definition mon_help : list (string * string) * Z :=
  (map (fun e => (fst (fst e), snd (fst e))) commands, 0).

(** A line of arguments separated by single blanks. *)
Fixpoint join_args (args : list (list ascii)) : list ascii :=
  match args with
  | [] => []
  | [a] => a
  | a :: rest => a ++ " "%char :: join_args rest
  end.

(** A character an argument can consist of: neither NUL nor whitespace. *)
Definition arg_char (c : ascii) : bool :=
  negb (Ascii.eqb c NUL) && negb (strchr_ws c).

(** A well-formed argument: not empty, made of argument characters. *)
Definition is_arg (a : list ascii) : bool :=
  negb (Nat.eqb (length a) 0) && forallb arg_char a.

End Runcmd.
Export Runcmd.

(** ** The colour test: rainbow *)

Module RainbowCmd.

Section Colours.

(** The number of console colours, a constant of kern/console.h. *)
Variable COLOR_NUM : Z.

(** [static const char msg[] = "rainbow!";] *)
Definition rainbow_msg : list ascii := list_ascii_of_string "rainbow!".

(** One printed cell: the foreground and background colour set before the
    character, and the character. *)
Record cell : Type := mkCell { fg : Z; bg : Z; glyph : ascii }.

(** [rainbow(stride)]: the cells of one line. *)
Definition rainbow (stride : Z) : list cell :=
  map (fun i => mkCell i ((i + stride) mod COLOR_NUM)
                       (nth (Z.to_nat (i mod 8)) rainbow_msg NUL))
      (seqZ 0 COLOR_NUM).

(** [mon_rainbow]: the lines printed, for stride 1 to COLOR_NUM - 1, and
    the return code. *)
Definition mon_rainbow : list (list cell) * Z :=
  (map rainbow (seqZ 1 (COLOR_NUM - 1)), 0).

End Colours.

End RainbowCmd.
Export RainbowCmd.

(** * Properties *)

(** ** Bit-level facts *)

Module Bits.

Lemma testbit_single (i k : Z) :
  0 <= i -> Z.testbit (Z.shiftl 1 i) k = (i =? k).
Proof.
  intros Hi. rewrite Z.shiftl_1_l. now apply Z.pow2_bits_eqb.
Qed.

Lemma land_single (x i : Z) :
  0 <= i -> Z.land x (Z.shiftl 1 i) = if Z.testbit x i then Z.shiftl 1 i else 0.
Proof.
  intros Hi. apply Z.bits_inj'. intros k Hk.
  rewrite Z.land_spec, testbit_single by lia.
  destruct (Z.eqb_spec i k) as [->|Hne].
  - destruct (Z.testbit x k); [ | now rewrite Z.bits_0 ].
    rewrite testbit_single, Z.eqb_refl by lia. reflexivity.
  - rewrite andb_false_r.
    destruct (Z.testbit x i); [ | now rewrite Z.bits_0 ].
    rewrite testbit_single by lia. symmetry. now apply Z.eqb_neq.
Qed.

(** Testing one bit with a mask is reading that bit. *)
Lemma tst_single (x i : Z) : 0 <= i -> tst x (Z.shiftl 1 i) = Z.testbit x i.
Proof.
  intros Hi. unfold tst. rewrite land_single by lia.
  destruct (Z.testbit x i); [ | reflexivity ].
  rewrite Z.shiftl_1_l.
  assert (0 < 2 ^ i) by (apply Z.pow_pos_nonneg; lia).
  destruct (Z.eqb_spec (2 ^ i) 0); [ lia | reflexivity ].
Qed.

Lemma tst_P (x : Z) : tst x PTE_P = Z.testbit x 0.
Proof. exact (tst_single x 0 ltac:(lia)). Qed.

Lemma tst_PS (x : Z) : tst x PTE_PS = Z.testbit x 7.
Proof. exact (tst_single x 7 ltac:(lia)). Qed.

Lemma testbit_P (k : Z) : 0 <= k -> Z.testbit PTE_P k = (0 =? k).
Proof. intros Hk. exact (testbit_single 0 k ltac:(lia)). Qed.

Lemma testbit_PS (k : Z) : 0 <= k -> Z.testbit PTE_PS k = (7 =? k).
Proof. intros Hk. exact (testbit_single 7 k ltac:(lia)). Qed.

(** The bits of a 32-bit word from position 32 on are clear. *)
Lemma wrap32_high (x k : Z) : 32 <= k -> Z.testbit (wrap32 x) k = false.
Proof. intros Hk. unfold wrap32. apply Z.mod_pow2_bits_high. lia. Qed.

Lemma wrap32_low (x k : Z) : k < 32 -> Z.testbit (wrap32 x) k = Z.testbit x k.
Proof. intros Hk. unfold wrap32. apply Z.mod_pow2_bits_low. lia. Qed.

Lemma wrap32_range (x : Z) : 0 <= wrap32 x < 2 ^ 32.
Proof. unfold wrap32. apply Z.mod_pos_bound. lia. Qed.

Lemma wrap32_small (x : Z) : 0 <= x < 2 ^ 32 -> wrap32 x = x.
Proof. intros H. unfold wrap32. now apply Z.mod_small. Qed.

(** A non-negative number below [2 ^ n] has no bit from position [n] on. *)
Lemma small_high (n x k : Z) :
  0 <= n -> 0 <= x < 2 ^ n -> n <= k -> Z.testbit x k = false.
Proof.
  intros Hn Hx Hk. rewrite <- (Z.mod_small x (2 ^ n)) by lia.
  apply Z.mod_pow2_bits_high. lia.
Qed.

(** The mask 0xFFFFF000 keeps bits 12 to 31. *)
Lemma testbit_addr_mask (k : Z) :
  0 <= k -> Z.testbit 0xFFFFF000 k = (12 <=? k) && (k <? 32).
Proof.
  intros Hk. change 0xFFFFF000 with (Z.shiftl (Z.ones 20) 12).
  destruct (Z.leb_spec 12 k).
  - rewrite Z.shiftl_spec by lia.
    destruct (Z.ltb_spec k 32).
    + apply Z.ones_spec_low. lia.
    + apply Z.ones_spec_high. lia.
  - apply Z.shiftl_spec_low. lia.
Qed.

(** The mask 0xFFF keeps bits 0 to 11. *)
Lemma testbit_perm_mask (k : Z) : 0 <= k -> Z.testbit 0xFFF k = (k <? 12).
Proof.
  intros Hk. change 0xFFF with (Z.ones 12).
  destruct (Z.ltb_spec k 12).
  - apply Z.ones_spec_low. lia.
  - apply Z.ones_spec_high. lia.
Qed.

(** The mask ~1, in 32 bits, keeps bits 1 to 31. *)
Lemma testbit_not_P (k : Z) :
  0 <= k -> Z.testbit 0xFFFFFFFE k = (1 <=? k) && (k <? 32).
Proof.
  intros Hk. change 0xFFFFFFFE with (Z.shiftl (Z.ones 31) 1).
  destruct (Z.leb_spec 1 k).
  - rewrite Z.shiftl_spec by lia.
    destruct (Z.ltb_spec k 32).
    + apply Z.ones_spec_low. lia.
    + apply Z.ones_spec_high. lia.
  - apply Z.shiftl_spec_low. lia.
Qed.

(** Closes a goal between boolean combinations of bit tests and index
    comparisons by splitting on the comparisons, then on the bits. *)
Ltac split_bits :=
  repeat match goal with
    | |- context [Z.ltb ?a ?b] => destruct (Z.ltb_spec a b)
    | |- context [Z.leb ?a ?b] => destruct (Z.leb_spec a b)
    | |- context [Z.eqb ?a ?b] => destruct (Z.eqb_spec a b)
    end;
  subst; try lia;
  repeat match goal with
    | H : Z.testbit ?a ?b = _ |- context [Z.testbit ?a ?c] =>
        replace c with b by lia; rewrite H
    end;
  repeat match goal with
    | |- context [Z.testbit ?a ?b] => destruct (Z.testbit a b)
    end;
  try reflexivity; try lia; try discriminate.

End Bits.
Import Bits.

(** ** PermissionCodec *)

Module CodecFacts.

(** Case analysis on an index below nine. *)
Ltac nine_cases i :=
  do 9 (destruct i as [|i]; [ try (vm_compute; intuition congruence) | ]);
  try (exfalso; lia).

Lemma char2perm_nth (i : nat) :
  (i < 9)%nat -> char2perm (nth i perm_string NUL) = Z.shiftl 1 (Z.of_nat i).
Proof. intros Hi. nine_cases i. Qed.

Lemma nth_is_letter (i : nat) :
  (i < 9)%nat ->
  is_mnemonic (nth i perm_string NUL) = true
  /\ Ascii.eqb (nth i perm_string NUL) NUL = false
  /\ Ascii.eqb (nth i perm_string NUL) "-"%char = false.
Proof. intros Hi. nine_cases i. Qed.

Lemma perm2str_loop_length (n : nat) (perm : Z) :
  length (perm2str_loop n perm) = n.
Proof. induction n as [|n IH]; simpl; [ reflexivity | now rewrite IH ]. Qed.

Lemma perm2str_loop_alphabet (n : nat) (perm : Z) :
  (n <= 9)%nat -> forallb in_alphabet (perm2str_loop n perm) = true.
Proof.
  induction n as [|n IH]; intros Hn; cbn [perm2str_loop forallb]; [ reflexivity | ].
  rewrite IH by lia. rewrite andb_true_r.
  destruct (tst perm (Z.shiftl 1 (Z.of_nat n))); [ | reflexivity ].
  unfold in_alphabet. destruct (nth_is_letter n) as [-> _]; [ lia | reflexivity ].
Qed.

(** Position by position: the character written at [target + 8 - i] is the
    i-th mnemonic when bit i is set, and a dash otherwise. *)
Lemma perm2str_loop_nth (n k : nat) (perm : Z) :
  (k < n)%nat ->
  nth k (perm2str_loop n perm) NUL =
  if Z.testbit perm (Z.of_nat (n - 1 - k))
  then nth (n - 1 - k) perm_string NUL else "-"%char.
Proof.
  revert k. induction n as [|n IH]; intros k Hk; [ lia | ].
  destruct k as [|k]; cbn [perm2str_loop nth].
  - rewrite tst_single by lia. now replace (S n - 1 - 0)%nat with n by lia.
  - rewrite IH by lia. now replace (S n - 1 - S k)%nat with (n - 1 - k)%nat by lia.
Qed.

(** Decoding the letters of the last [n] positions gives bits [0..n-1]. *)
Lemma str2perm_loop_letters (n : nat) (perm acc : Z) :
  (n <= 9)%nat ->
  str2perm_loop (letters (perm2str_loop n perm)) acc =
  Z.lor acc (Z.land perm (Z.ones (Z.of_nat n))).
Proof.
  revert acc. induction n as [|n IH]; intros acc Hn.
  - simpl. now rewrite Z.land_0_r, Z.lor_0_r.
  - cbn [perm2str_loop]. rewrite tst_single by lia. unfold letters.
    destruct (nth_is_letter n) as (_ & Hnul & Hdash); [ lia | ].
    destruct (Z.testbit perm (Z.of_nat n)) eqn:Hbit.
    + rewrite filter_cons_True by exact Hdash.
      cbn [str2perm_loop]. rewrite Hnul. fold (letters (perm2str_loop n perm)).
      rewrite IH, char2perm_nth by lia.
      apply Z.bits_inj'. intros k Hk.
      rewrite !Z.lor_spec, !Z.land_spec, testbit_single by lia.
      rewrite !Z.testbit_ones_nonneg by lia. split_bits.
    + rewrite filter_cons_False by (vm_compute; discriminate).
      fold (letters (perm2str_loop n perm)). rewrite IH by lia. f_equal.
      apply Z.bits_inj'. intros k Hk.
      rewrite !Z.land_spec, !Z.testbit_ones_nonneg by lia. split_bits.
Qed.

(** The accumulator of [str2perm] is never negative: its panic is dead. *)
Lemma char2perm_nonneg (c : ascii) : 0 <= char2perm c.
Proof.
  unfold char2perm.
  repeat match goal with |- context [if ?b then _ else _] => destruct b end;
    vm_compute; congruence.
Qed.

Lemma str2perm_loop_nonneg (str : list ascii) (acc : Z) :
  0 <= acc -> 0 <= str2perm_loop str acc.
Proof.
  revert acc. induction str as [|c rest IH]; intros acc Hacc; simpl; [ exact Hacc | ].
  destruct (Ascii.eqb c NUL); [ exact Hacc | ].
  apply IH. apply Z.lor_nonneg. split; [ exact Hacc | apply char2perm_nonneg ].
Qed.

Lemma str2perm_Ok (str : list ascii) :
  str2perm str = Ok (Z.land (str2perm_loop str 0) 0xFFFFFFFE).
Proof.
  unfold str2perm. pose proof (str2perm_loop_nonneg str 0 ltac:(lia)) as H.
  destruct (Z.ltb_spec (str2perm_loop str 0) 0); [ lia | reflexivity ].
Qed.

End CodecFacts.
Import CodecFacts.

(** C10. The encode table and the decode table agree: for every index i
    from 0 to 8, looking up the i-th character of the mnemonic string
    "PWUTCADSG" with [char2perm] gives exactly the single bit [1 << i]. *)
Theorem char2perm_perm_string (i : nat) :
  (i <= 8)%nat ->
  char2perm (nth i perm_string NUL) = Z.shiftl 1 (Z.of_nat i).
Proof. intros Hi. apply char2perm_nth. lia. Qed.

Lemma char2perm_perm_string_witness :
  char2perm (nth 3 perm_string NUL) = Z.shiftl 1 (Z.of_nat 3).
Proof. apply (char2perm_perm_string 3). lia. Defined.

(** C2, as stated, fails on the code: the encoding of the set {Writable}
    is "-------W-", and decoding that string does not give the set back,
    because a dash is not a mnemonic letter. *)
Lemma codec_roundtrip_counterexample :
  (0 <= 0x2 < 0x200) /\ Z.land 0x2 PTE_P = 0
  /\ snd (perm2str 0x2) = list_ascii_of_string "-------W-"
  /\ str2perm (snd (perm2str 0x2)) <> Ok 0x2.
Proof.
  split; [ lia | ]. split; [ reflexivity | ]. split; [ reflexivity | ].
  vm_compute. discriminate.
Qed.

(** C2, amended. For every 9-bit permission set p with the Present bit
    cleared, the encode output has exactly 9 characters, each a mnemonic
    letter or a dash, and decoding its mnemonic letters (the dashes left
    out) returns p again. *)
Theorem codec_roundtrip_letters (p : Z) :
  0 <= p < 0x200 -> Z.land p PTE_P = 0 ->
  length (snd (perm2str p)) = 9%nat
  /\ forallb in_alphabet (snd (perm2str p)) = true
  /\ str2perm (letters (snd (perm2str p))) = Ok p.
Proof.
  intros Hp HP. unfold perm2str.
  destruct (Z.leb_spec 0x200 p); [ lia | ]. cbn [snd].
  split; [ apply perm2str_loop_length | ].
  split; [ apply perm2str_loop_alphabet; lia | ].
  rewrite str2perm_Ok, str2perm_loop_letters by lia. f_equal.
  assert (Hbit0 : Z.testbit p 0 = false).
  { change PTE_P with (Z.shiftl 1 0) in HP. rewrite land_single in HP by lia.
    destruct (Z.testbit p 0); [ discriminate HP | reflexivity ]. }
  apply Z.bits_inj'. intros k Hk.
  rewrite Z.land_spec, Z.lor_spec, Z.land_spec, Z.bits_0, testbit_not_P by lia.
  rewrite Z.testbit_ones_nonneg by lia. cbn [orb Z.of_nat Pos.of_succ_nat Pos.succ].
  destruct (Z.ltb_spec k 9).
  - destruct (Z.eqb_spec k 0) as [->|]; [ now rewrite Hbit0 | split_bits ].
  - rewrite (small_high 9 p k) by lia. reflexivity.
Qed.

Lemma codec_roundtrip_letters_witness :
  length (snd (perm2str 0x1A6)) = 9%nat
  /\ forallb in_alphabet (snd (perm2str 0x1A6)) = true
  /\ str2perm (letters (snd (perm2str 0x1A6))) = Ok 0x1A6.
Proof. apply (codec_roundtrip_letters 0x1A6); [ lia | reflexivity ]. Defined.

(** ** PermissionMutator *)

Module SetpermFacts.

(** A mnemonic letter is one of the nine entries of the table. *)
Lemma is_mnemonic_nth (c : ascii) :
  is_mnemonic c = true -> exists i, (i < 9)%nat /\ c = nth i perm_string NUL.
Proof.
  unfold is_mnemonic, perm_string. cbn [list_ascii_of_string existsb].
  intros H. repeat (apply orb_prop in H; destruct H as [H|H]);
    try discriminate H; apply Ascii.eqb_eq in H; subst c.
  - now exists 0%nat; split; [ lia | ].
  - now exists 1%nat; split; [ lia | ].
  - now exists 2%nat; split; [ lia | ].
  - now exists 3%nat; split; [ lia | ].
  - now exists 4%nat; split; [ lia | ].
  - now exists 5%nat; split; [ lia | ].
  - now exists 6%nat; split; [ lia | ].
  - now exists 7%nat; split; [ lia | ].
  - now exists 8%nat; split; [ lia | ].
Qed.

Lemma mnemonic_not_NUL (c : ascii) : is_mnemonic c = true -> Ascii.eqb c NUL = false.
Proof.
  intros H. destruct (is_mnemonic_nth c H) as (i & Hi & ->).
  now destruct (nth_is_letter i Hi) as (_ & ? & _).
Qed.

(** The bits a mnemonic letter contributes: none from position 9 on, and
    bit 7 exactly for the letter S. *)
Lemma mnemonic_bits (c : ascii) (k : Z) :
  is_mnemonic c = true -> 0 <= k ->
  Z.testbit (char2perm c) k = true -> k < 9.
Proof.
  intros H Hk. destruct (is_mnemonic_nth c H) as (i & Hi & ->).
  rewrite char2perm_nth, testbit_single by lia.
  intros E. apply Z.eqb_eq in E. lia.
Qed.

Lemma mnemonic_bit7 (c : ascii) :
  is_mnemonic c = true -> Z.testbit (char2perm c) 7 = Ascii.eqb c "S"%char.
Proof.
  intros H. destruct (is_mnemonic_nth c H) as (i & Hi & ->). nine_cases i.
Qed.

(** [strncpy] of a string of letters, then the loop of [str2perm]: the
    first nine letters are decoded. *)
Lemma str2perm_loop_strncpy (n : nat) (s : list ascii) (acc : Z) :
  forallb is_mnemonic s = true ->
  str2perm_loop (strncpy n s ++ [NUL]) acc = str2perm_loop (firstn n s) acc.
Proof.
  revert s acc. induction n as [|n IH]; intros s acc Hs.
  - reflexivity.
  - destruct s as [|c rest]; [ reflexivity | ].
    cbn [forallb] in Hs. apply andb_prop in Hs. destruct Hs as [Hc Hrest].
    cbn [strncpy firstn]. rewrite (mnemonic_not_NUL c Hc).
    cbn [app str2perm_loop]. rewrite (mnemonic_not_NUL c Hc). now apply IH.
Qed.

(** Bit k of the decoded letters: set before, or contributed by a letter. *)
Lemma str2perm_loop_bits (s : list ascii) (acc k : Z) :
  forallb is_mnemonic s = true ->
  Z.testbit (str2perm_loop s acc) k =
  Z.testbit acc k || existsb (fun c => Z.testbit (char2perm c) k) s.
Proof.
  revert acc. induction s as [|c rest IH]; intros acc Hs.
  - cbn [str2perm_loop existsb]. now rewrite orb_false_r.
  - cbn [forallb] in Hs. apply andb_prop in Hs. destruct Hs as [Hc Hrest].
    cbn [str2perm_loop existsb]. rewrite (mnemonic_not_NUL c Hc).
    rewrite IH, Z.lor_spec by exact Hrest. now rewrite orb_assoc.
Qed.

Lemma forallb_firstn {A} (f : A -> bool) (n : nat) (l : list A) :
  forallb f l = true -> forallb f (firstn n l) = true.
Proof.
  revert l. induction n as [|n IH]; intros [|x l] H; try reflexivity.
  cbn [forallb firstn] in *. apply andb_prop in H. destruct H as [-> H].
  now rewrite IH.
Qed.

(** What [mon_setperm] holds in its 16-bit [perm] after decoding a string
    of letters: a value below 0x200 without the Present bit, whose bit 7
    tells whether S is among the first nine letters. *)
Lemma decoded_perm (s : list ascii) :
  forallb is_mnemonic s = true ->
  exists p,
    str2perm (strncpy 9 s ++ [NUL]) = Ok p
    /\ wrap16 p = p
    /\ (forall k, 9 <= k -> Z.testbit p k = false)
    /\ Z.testbit p 0 = false
    /\ Z.testbit p 7 = existsb (fun c => Ascii.eqb c "S"%char) (firstn 9 s).
Proof.
  intros Hs. rewrite str2perm_Ok, str2perm_loop_strncpy by exact Hs.
  pose proof (forallb_firstn _ 9 s Hs) as Hf.
  set (q := str2perm_loop (firstn 9 s) 0).
  assert (Hhigh : forall k, 9 <= k -> Z.testbit q k = false).
  { intros k Hk. unfold q. rewrite str2perm_loop_bits, Z.bits_0 by exact Hf.
    cbn [orb]. apply not_true_is_false. intros E.
    apply existsb_exists in E. destruct E as (c & Hin & Hc).
    rewrite forallb_forall in Hf.
    pose proof (mnemonic_bits c k (Hf c Hin) ltac:(lia) Hc). lia. }
  assert (Hp : forall k, 0 <= k ->
            Z.testbit (Z.land q 0xFFFFFFFE) k = Z.testbit q k && (1 <=? k) && (k <? 9)).
  { intros k Hk. rewrite Z.land_spec, testbit_not_P by lia.
    destruct (Z.ltb_spec k 9); [ split_bits | ].
    rewrite Hhigh by lia. reflexivity. }
  assert (Hrange : 0 <= Z.land q 0xFFFFFFFE < 2 ^ 9).
  { assert (0 <= Z.land q 0xFFFFFFFE) by (apply Z.land_nonneg; lia).
    split; [ assumption | ].
    destruct (Z.eq_dec (Z.land q 0xFFFFFFFE) 0) as [->|Hne]; [ lia | ].
    apply Z.log2_lt_pow2; [ lia | ].
    destruct (Z.lt_ge_cases (Z.log2 (Z.land q 0xFFFFFFFE)) 9) as [|Hge]; [ assumption | ].
    pose proof (Z.bit_log2 (Z.land q 0xFFFFFFFE) ltac:(lia)) as Hb.
    rewrite Hp in Hb by lia.
    destruct (Z.ltb_spec (Z.log2 (Z.land q 0xFFFFFFFE)) 9); [ lia | ].
    now rewrite andb_false_r in Hb. }
  exists (Z.land q 0xFFFFFFFE). split; [ reflexivity | ].
  split; [ unfold wrap16; apply Z.mod_small; lia | ].
  split; [ intros k Hk; rewrite Hp by lia; destruct (Z.ltb_spec k 9); [ lia | apply andb_false_r ] | ].
  split; [ rewrite Hp by lia; now rewrite andb_false_r | ].
  rewrite Hp by lia. cbn [Z.leb Z.ltb Z.compare Pos.compare Pos.compare_cont].
  rewrite !andb_true_r. unfold q. rewrite str2perm_loop_bits, Z.bits_0 by exact Hf.
  cbn [orb]. clear -Hf. induction (firstn 9 s) as [|c l IH]; [ reflexivity | ].
  cbn [forallb existsb] in *. apply andb_prop in Hf. destruct Hf as [Hc Hl].
  now rewrite mnemonic_bit7, IH.
Qed.

Lemma read32_write32_eq (m : Machine) (a v : Z) :
  read32 (write32 m a v) a = wrap32 v.
Proof. unfold read32, write32. cbn [mem]. now rewrite lookup_insert_eq. Qed.

Lemma read32_write32_ne (m : Machine) (a b v : Z) :
  a <> b -> read32 (write32 m a v) b = read32 m b.
Proof. intros H. unfold read32, write32. cbn [mem]. now rewrite lookup_insert_ne. Qed.

Lemma read32_high (m : Machine) (a k : Z) : 32 <= k -> Z.testbit (read32 m a) k = false.
Proof. intros Hk. now apply wrap32_high. Qed.

End SetpermFacts.
Import SetpermFacts.

(** C3, as stated, fails on the code: on the present leaf entry of page
    0x1000 (Superpage bit clear), setperm with the string "S" sets the
    entry's Superpage bit. *)
Lemma setperm_superpage_bit_counterexample :
  present_mapping Examples.demo (wrap32 0x1000) false 0xF0200004
  /\ Z.testbit (read32 Examples.demo 0xF0200004) 7 = false
  /\ exists m' out,
       mon_setperm Examples.demo 0x1000 (list_ascii_of_string "S") = Ok (0, m', out)
       /\ Z.testbit (read32 m' 0xF0200004) 7 = true.
Proof.
  split; [ | split; [ reflexivity | ] ].
  - change 0xF0200004 with (PTE_PTR Examples.demo (wrap32 0x1000)).
    apply present_leaf; reflexivity.
  - eexists _, _. split; [ vm_compute; reflexivity | reflexivity ].
Qed.

(** C3, amended. For every setperm invocation whose permission string
    consists of mnemonic letters, on an existing present mapping: the call
    succeeds and writes the single targeted entry only; in the resulting
    entry the Present bit is set and every bit from position 12 on (the
    frame address) is unchanged; the Superpage bit of a superpage
    directory entry stays set, and the Superpage bit of a leaf entry is set
    exactly when S is among the first nine letters of the string. *)
Theorem setperm_frame (m : Machine) (addr : Z) (s : list ascii) (sp : bool) (e : Z) :
  forallb is_mnemonic s = true ->
  present_mapping m (wrap32 addr) sp e ->
  exists new out,
    mon_setperm m addr s = Ok (0, write32 m e new, out)
    /\ (forall a, a <> e -> read32 (write32 m e new) a = read32 m a)
    /\ Z.testbit (read32 (write32 m e new) e) 0 = true
    /\ (forall k, 12 <= k ->
          Z.testbit (read32 (write32 m e new) e) k = Z.testbit (read32 m e) k)
    /\ Z.testbit (read32 (write32 m e new) e) 7 =
       (if sp then true
        else existsb (fun c => Ascii.eqb c "S"%char) (firstn 9 s)).
Proof.
  intros Hs Hmap.
  destruct (decoded_perm s Hs) as (p & Hp & H16 & Hhi & Hp0 & Hp7).
  unfold mon_setperm. cbv zeta. rewrite Hp. cbn [bind]. rewrite H16.
  change (wrap32 (Z.lnot 0xFFF)) with 0xFFFFF000.
  destruct Hmap as [Hps Hpp | Hps Hpp Hlp].
  - unfold PDE in Hps, Hpp. rewrite tst_PS, tst_P, Hps, Hpp.
    eexists _, _. split; [ reflexivity | ].
    split; [ intros a Ha; apply read32_write32_ne; congruence | ].
    rewrite read32_write32_eq.
    split; [ | split ].
    + rewrite wrap32_low, !Z.lor_spec, testbit_P, testbit_PS by lia.
      cbn. now rewrite orb_true_r.
    + intros k Hk. destruct (Z.ltb_spec k 32) as [Hlt|Hge].
      * rewrite wrap32_low, !Z.lor_spec, Z.land_spec by lia.
        rewrite testbit_P, testbit_PS, testbit_addr_mask, Hhi by lia. split_bits.
      * rewrite wrap32_high by lia. symmetry. apply wrap32_high. lia.
    + rewrite wrap32_low, !Z.lor_spec, testbit_P, testbit_PS by lia.
      cbn. now rewrite orb_true_r.
  - rewrite tst_PS. fold (PDE m (wrap32 addr)). rewrite Hps. cbv iota.
    unfold pgdir_walk. rewrite tst_P, Hpp, tst_P.
    fold (PTE m (wrap32 addr)). rewrite Hlp.
    eexists _, _. split; [ reflexivity | ].
    split; [ intros a Ha; apply read32_write32_ne; congruence | ].
    rewrite read32_write32_eq.
    split; [ | split ].
    + rewrite wrap32_low, !Z.lor_spec, testbit_P by lia.
      cbn. now rewrite orb_true_r.
    + intros k Hk. destruct (Z.ltb_spec k 32) as [Hlt|Hge].
      * rewrite wrap32_low, !Z.lor_spec, !Z.land_spec by lia.
        rewrite testbit_P, testbit_addr_mask, Hhi by lia. split_bits.
      * rewrite wrap32_high by lia. symmetry. apply wrap32_high. lia.
    + rewrite wrap32_low, !Z.lor_spec, !Z.land_spec by lia.
      rewrite testbit_P, testbit_addr_mask, testbit_perm_mask, Hp7 by lia.
      change (12 <=? 7) with false. change (7 <? 12) with true.
      change (0 =? 7) with false.
      now rewrite andb_false_r, andb_true_r, orb_false_r.
Qed.

Lemma setperm_frame_witness :
  exists new out,
    mon_setperm Examples.demo 0x1000 (list_ascii_of_string "WU")
    = Ok (0, write32 Examples.demo 0xF0200004 new, out)
    /\ (forall a, a <> 0xF0200004 ->
          read32 (write32 Examples.demo 0xF0200004 new) a = read32 Examples.demo a)
    /\ Z.testbit (read32 (write32 Examples.demo 0xF0200004 new) 0xF0200004) 0 = true
    /\ (forall k, 12 <= k ->
          Z.testbit (read32 (write32 Examples.demo 0xF0200004 new) 0xF0200004) k
          = Z.testbit (read32 Examples.demo 0xF0200004) k)
    /\ Z.testbit (read32 (write32 Examples.demo 0xF0200004 new) 0xF0200004) 7 = false.
Proof.
  apply (setperm_frame Examples.demo 0x1000 (list_ascii_of_string "WU") false 0xF0200004).
  - reflexivity.
  - change 0xF0200004 with (PTE_PTR Examples.demo (wrap32 0x1000)).
    apply present_leaf; reflexivity.
Defined.

(** *** Unknown mnemonics *)

Module UnknownFacts.

Lemma char2perm_range (c : ascii) : 0 <= char2perm c < 2 ^ 32.
Proof.
  unfold char2perm.
  repeat match goal with |- context [if ?b then _ else _] => destruct b end;
    vm_compute; split; congruence.
Qed.

Lemma char2perm_unknown (c : ascii) :
  is_mnemonic c = false -> char2perm c = 0xFFFFFFFF.
Proof.
  unfold is_mnemonic, perm_string, char2perm.
  cbn [list_ascii_of_string existsb]. intros H.
  repeat (apply orb_false_elim in H; destruct H as [? H]).
  repeat match goal with E : Ascii.eqb c _ = false |- _ => rewrite E; clear E end.
  reflexivity.
Qed.

Lemma lor_saturated (a : Z) : 0 <= a < 2 ^ 32 -> Z.lor 0xFFFFFFFF a = 0xFFFFFFFF.
Proof.
  intros Ha. apply Z.bits_inj'. intros k Hk. rewrite Z.lor_spec.
  change 0xFFFFFFFF with (Z.ones 32). rewrite Z.testbit_ones_nonneg by lia.
  destruct (Z.ltb_spec k 32); [ reflexivity | ].
  now rewrite (small_high 32 a k) by lia.
Qed.

Lemma lor_range32 (a b : Z) :
  0 <= a < 2 ^ 32 -> 0 <= b < 2 ^ 32 -> 0 <= Z.lor a b < 2 ^ 32.
Proof.
  intros Ha Hb. rewrite <- (wrap32_small a), <- (wrap32_small b) by assumption.
  replace (Z.lor (wrap32 a) (wrap32 b)) with (wrap32 (Z.lor a b)).
  - apply wrap32_range.
  - apply Z.bits_inj'. intros k Hk. rewrite Z.lor_spec.
    destruct (Z.ltb_spec k 32).
    + now rewrite !wrap32_low, Z.lor_spec by lia.
    + now rewrite !wrap32_high by lia.
Qed.

(** Once the all-ones sentinel is in the accumulator it stays. *)
Lemma str2perm_loop_saturated (str : list ascii) :
  str2perm_loop str 0xFFFFFFFF = 0xFFFFFFFF.
Proof.
  induction str as [|c rest IH]; cbn [str2perm_loop]; [ reflexivity | ].
  destruct (Ascii.eqb c NUL); [ reflexivity | ].
  now rewrite lor_saturated by apply char2perm_range.
Qed.

(** A character without mnemonic, met before the terminating NUL, does
    not stop [str2perm]: it returns normally, with every bit but Present
    set. *)
Lemma str2perm_unknown_char (pre post : list ascii) (c : ascii) :
  forallb (fun x => negb (Ascii.eqb x NUL)) pre = true ->
  Ascii.eqb c NUL = false -> is_mnemonic c = false ->
  str2perm (pre ++ c :: post) = Ok 0xFFFFFFFE.
Proof.
  intros Hpre Hc Hunk. rewrite str2perm_Ok. f_equal.
  assert (H : forall acc, 0 <= acc < 2 ^ 32 ->
                str2perm_loop (pre ++ c :: post) acc = 0xFFFFFFFF).
  { induction pre as [|x pre IH]; intros acc Hacc.
    - cbn [app str2perm_loop]. rewrite Hc, char2perm_unknown by exact Hunk.
      rewrite Z.lor_comm, lor_saturated by exact Hacc.
      apply str2perm_loop_saturated.
    - cbn [forallb] in Hpre. apply andb_prop in Hpre. destruct Hpre as [Hx Hpre].
      cbn [app str2perm_loop]. destruct (Ascii.eqb x NUL); [ discriminate Hx | ].
      apply IH; [ exact Hpre | ]. apply lor_range32; [ exact Hacc | apply char2perm_range ]. }
  rewrite H by lia. reflexivity.
Qed.

End UnknownFacts.
Import UnknownFacts.

(** C1. The code does not do what the claim says. On the present leaf
    entry 0x00345003 of page 0x1000, setperm with the string "WPZ", whose
    Z has no mnemonic mapping, does not fail: str2perm returns 0xFFFFFFFE,
    the call returns 0 and the entry becomes 0x00345FFF. On the present
    superpage entry 0x00800083 of 0x400000 the same string also overwrites
    frame address bits: the entry becomes 0x0080FFFF. *)
Theorem setperm_unknown_mnemonic_accepted :
  is_mnemonic "Z"%char = false
  /\ str2perm (strncpy 9 (list_ascii_of_string "WPZ") ++ [NUL]) = Ok 0xFFFFFFFE
  /\ read32 Examples.demo 0xF0200004 = 0x00345003
  /\ mon_setperm Examples.demo 0x1000 (list_ascii_of_string "WPZ")
     = Ok (0, write32 Examples.demo 0xF0200004 0x00345FFF,
           [NewMapping 0x1000 0x00345000 0xFFF])
  /\ read32 Examples.demo 0xF0110004 = 0x00800083
  /\ mon_setperm Examples.demo 0x400000 (list_ascii_of_string "WPZ")
     = Ok (0, write32 Examples.demo 0xF0110004 0x0080FFFF,
           [NewMapping 0x400000 0x0080F000 0xFFF]).
Proof. repeat split; vm_compute; reflexivity. Qed.

(** ** RangeInspector: showmap *)

Module ShowmapFacts.

Lemma print_mapped_lines (pse : bool) (va pa perm : Z) :
  count_Mapped (print_mapped pse va pa perm) = 1
  /\ no_Unmapped (print_mapped pse va pa perm) = true.
Proof.
  unfold print_mapped, perm2str.
  destruct (0x200 <=? perm); split; reflexivity.
Qed.

(** What the body does on a present leaf: the line carries the address
    part of the directory entry. *)
Lemma showmap_body_leaf (m : Machine) (v : Z) :
  Z.testbit (PDE m v) 0 = true -> Z.testbit (PDE m v) 7 = false ->
  Z.testbit (PTE m v) 0 = true ->
  showmap_body m v =
  Continue (wrap32 (v + PGSIZE))
           (PtePerm (PERM (PTE m v))
            :: print_mapped false v (PTE_ADDR (PDE m v)) (PERM (PTE m v))).
Proof.
  intros HP HS HL. unfold showmap_body. cbv zeta.
  now rewrite tst_P, HP, tst_PS, HS, tst_P, HL.
Qed.

Lemma showmap_body_superpage (m : Machine) (v : Z) :
  Z.testbit (PDE m v) 0 = true -> Z.testbit (PDE m v) 7 = true ->
  showmap_body m v =
  Continue (wrap32 (v + LPGSIZE))
           (print_mapped true v
              (Z.lor (PTE_ADDR (PDE m v)) (Z.shiftl (PTX v) PTXSHIFT))
              (PERM (PDE m v))).
Proof.
  intros HP HS. unfold showmap_body. cbv zeta.
  now rewrite tst_P, HP, tst_PS, HS.
Qed.

(** On a present directory entry without Superpage bit whose leaf is not
    present, the body prints nothing and leaves [vstart] where it is. *)
Lemma showmap_body_absent_leaf (m : Machine) (v : Z) :
  Z.testbit (PDE m v) 0 = true -> Z.testbit (PDE m v) 7 = false ->
  Z.testbit (PTE m v) 0 = false ->
  showmap_body m v = Continue v [].
Proof.
  intros HP HS HL. unfold showmap_body. cbv zeta.
  now rewrite tst_P, HP, tst_PS, HS, tst_P, HL.
Qed.

Lemma showmap_body_absent_directory (m : Machine) (v : Z) :
  Z.testbit (PDE m v) 0 = false -> showmap_body m v = Return 1 [Unmapped v].
Proof.
  intros HP. unfold showmap_body. cbv zeta. now rewrite tst_P, HP.
Qed.

(** On an absent directory entry the loop prints one Unmapped line and
    returns 1. *)
Lemma showmap_loop_absent_directory (m : Machine) (v vend : Z) (fuel : nat) :
  v <= vend -> Z.testbit (PDE m v) 0 = false ->
  showmap_loop (S fuel) m v vend = ([Unmapped v], Some 1).
Proof.
  intros Hle HP. cbn [showmap_loop]. destruct (Z.leb_spec v vend); [ | lia ].
  now rewrite showmap_body_absent_directory.
Qed.

(** On an absent leaf the loop never ends, whatever the fuel. *)
Lemma showmap_loop_absent_leaf (m : Machine) (v vend : Z) (fuel : nat) :
  v <= vend ->
  Z.testbit (PDE m v) 0 = true -> Z.testbit (PDE m v) 7 = false ->
  Z.testbit (PTE m v) 0 = false ->
  showmap_loop fuel m v vend = ([], None).
Proof.
  intros Hle HP HS HL. induction fuel as [|fuel IH]; [ reflexivity | ].
  cbn [showmap_loop]. destruct (Z.leb_spec v vend); [ | lia ].
  now rewrite showmap_body_absent_leaf, IH.
Qed.

(** A step of size [step] prints exactly one Mapped line. *)
Lemma showmap_body_mapped (m : Machine) (step v : Z) :
  mapped_with m step v ->
  exists out,
    showmap_body m v = Continue (wrap32 (v + step)) out
    /\ count_Mapped out = 1 /\ no_Unmapped out = true.
Proof.
  intros [(-> & HP & HS) | (-> & HP & HS & HL)].
  - rewrite showmap_body_superpage by assumption.
    eexists. split; [ reflexivity | apply print_mapped_lines ].
  - rewrite showmap_body_leaf by assumption.
    eexists. split; [ reflexivity | ].
    destruct (print_mapped_lines false v (PTE_ADDR (PDE m v)) (PERM (PTE m v)))
      as [Hc Hn].
    split; [ exact Hc | exact Hn ].
Qed.

Lemma count_Mapped_app (a b : list Observation) :
  count_Mapped (a ++ b) = count_Mapped a + count_Mapped b.
Proof.
  unfold count_Mapped. rewrite List.filter_app, length_app. lia.
Qed.

Lemma no_Unmapped_app (a b : list Observation) :
  no_Unmapped a = true -> no_Unmapped b = true -> no_Unmapped (a ++ b) = true.
Proof. unfold no_Unmapped. intros Ha Hb. now rewrite forallb_app, Ha, Hb. Qed.

(** The loop over a range every step of which has size [step]: [n] more
    turns are due at [v], and [n] Mapped lines come out. *)
Lemma showmap_loop_uniform (m : Machine) (step vend : Z) (n : nat) :
  forall v fuel,
    0 < step -> 0 <= v -> vend + step < 2 ^ 32 ->
    (forall k, 0 <= k -> v + k * step <= vend -> mapped_with m step (v + k * step)) ->
    (if v <=? vend then Z.of_nat n = (vend - v) / step + 1 else n = 0%nat) ->
    (n < fuel)%nat ->
    exists out,
      showmap_loop fuel m v vend = (out, Some 0)
      /\ count_Mapped out = Z.of_nat n /\ no_Unmapped out = true.
Proof.
  induction n as [|n IH]; intros v fuel Hstep Hv Htop Hmap Hn Hfuel;
    (destruct fuel as [|fuel]; [ lia | ]); cbn [showmap_loop].
  - destruct (Z.leb_spec v vend) as [Hle|Hgt].
    + assert (0 <= (vend - v) / step) by (apply Z.div_pos; lia). lia.
    + exists []. repeat split.
  - destruct (Z.leb_spec v vend) as [Hle|Hgt]; [ | discriminate Hn ].
    pose proof (Hmap 0 ltac:(lia) ltac:(lia)) as H0.
    replace (v + 0 * step) with v in H0 by lia.
    destruct (showmap_body_mapped m step v H0) as (out1 & -> & Hc1 & Hn1).
    rewrite wrap32_small by lia.
    destruct (IH (v + step) fuel) as (rest & -> & Hc & Hnu); try lia.
    + intros k Hk Hkle.
      replace (v + step + k * step) with (v + (k + 1) * step) by lia.
      apply Hmap; lia.
    + destruct (Z.leb_spec (v + step) vend) as [Hle'|Hgt'].
      * replace (vend - v) with ((vend - (v + step)) + 1 * step) in Hn by lia.
        rewrite Z.div_add in Hn by lia. lia.
      * rewrite Z.div_small in Hn by lia. lia.
    + eexists. split; [ reflexivity | ].
      split; [ rewrite count_Mapped_app; lia | now apply no_Unmapped_app ].
Qed.

(** [ceil (x / step)] when [step] does not divide [x]. *)
Lemma ceil_div_inexact (x step : Z) :
  0 < step -> x mod step <> 0 -> ceil_div x step = x / step + 1.
Proof.
  intros Hs Hx. unfold ceil_div.
  pose proof (Z.mod_pos_bound x step Hs) as Hb.
  pose proof (Z.div_mod x step ltac:(lia)) as Hd.
  symmetry. apply (Z.div_unique _ _ _ (x mod step - 1)); lia.
Qed.

End ShowmapFacts.
Import ShowmapFacts.

(** C4. The code does not do what the claim says for a normal leaf: on
    page 0x1000, whose leaf entry records the frame 0x345000 in the page
    table at 0x200000, the Mapped line of showmap carries 0x200000, the
    address part of the directory entry. *)
Theorem showmap_leaf_prints_table_address :
  PTE_ADDR (PTE Examples.demo 0x1000) = 0x00345000
  /\ PTE_ADDR (PDE Examples.demo 0x1000) = 0x00200000
  /\ mon_showmap 2 Examples.demo 0x1000 1
     = ([PtePerm 3;
         Mapped false 0x1000 0x00200000 (list_ascii_of_string "-------WP")],
        Some 0).
Proof. repeat split; vm_compute; reflexivity. Qed.

(** C5. The code does not do what the claim says for a present directory
    entry without present leaf: page 0x3000 lies under the present,
    non-superpage directory slot 0 and its leaf entry is empty; showmap
    prints nothing there and has not returned after any number of turns
    of its loop. *)
Theorem showmap_absent_leaf_never_returns :
  Z.testbit (PDE Examples.demo 0x3000) 0 = true
  /\ Z.testbit (PDE Examples.demo 0x3000) 7 = false
  /\ Z.testbit (PTE Examples.demo 0x3000) 0 = false
  /\ forall fuel, mon_showmap fuel Examples.demo 0x3000 1 = ([], None).
Proof.
  split; [ reflexivity | ]. split; [ reflexivity | ]. split; [ reflexivity | ].
  intros fuel.
  change (mon_showmap fuel Examples.demo 0x3000 1)
    with (showmap_loop fuel Examples.demo 0x3000 0x3001).
  apply showmap_loop_absent_leaf; [ lia | reflexivity .. ].
Qed.

(** C7, as stated, fails on the code: the range of length 2 from 0x1FFF
    has no gap, and showmap prints two Mapped lines for it, not
    ceil(2 / 4096) = 1, since the rounded-down start lies a page earlier. *)
Lemma showmap_count_counterexample :
  exists out,
    mon_showmap 3 Examples.demo 0x1FFF 2 = (out, Some 0)
    /\ no_Unmapped out = true
    /\ count_Mapped out = 2
    /\ count_Mapped out <> ceil_div 2 PGSIZE.
Proof.
  eexists. split; [ vm_compute; reflexivity | ].
  split; [ reflexivity | ]. split; [ reflexivity | ].
  vm_compute. discriminate.
Qed.

(** C7, amended. For every showmap over a range without gaps all of whose
    steps have the same size (small pages throughout, or superpages
    throughout), which ends below the top of the address space and not on
    a step boundary counted from the rounded-down start: showmap returns
    normally and prints exactly ceil((length + start mod PGSIZE) / step)
    Mapped lines and no Unmapped one. *)
Theorem showmap_count (m : Machine) (start len step : Z) :
  0 <= start -> 0 <= len -> start + len + step < 2 ^ 32 ->
  (forall k, 0 <= k -> ROUNDDOWN start PGSIZE + k * step <= start + len ->
             mapped_with m step (ROUNDDOWN start PGSIZE + k * step)) ->
  (start mod PGSIZE + len) mod step <> 0 ->
  exists fuel0, forall fuel, (fuel0 <= fuel)%nat ->
    exists out,
      mon_showmap fuel m start len = (out, Some 0)
      /\ count_Mapped out = ceil_div (start mod PGSIZE + len) step
      /\ no_Unmapped out = true.
Proof.
  intros Hstart Hlen Htop Hmap Hrem.
  assert (Hoff : 0 <= start mod PGSIZE < PGSIZE) by (apply Z.mod_pos_bound; reflexivity).
  assert (Hoff' : start mod PGSIZE <= start) by (apply Z.mod_le; [ lia | reflexivity ]).
  assert (Hstep : 0 < step).
  { destruct (Hmap 0 ltac:(lia)) as [(-> & _) | (-> & _)];
      unfold ROUNDDOWN; try lia; reflexivity. }
  set (x := start mod PGSIZE + len) in *.
  assert (Hx : 0 <= x / step) by (apply Z.div_pos; lia).
  exists (S (Z.to_nat (x / step + 1))). intros fuel Hfuel.
  unfold mon_showmap. cbv zeta.
  rewrite (wrap32_small start), (wrap32_small len), (wrap32_small (start + len)) by lia.
  destruct (showmap_loop_uniform m step (start + len) (Z.to_nat (x / step + 1))
              (ROUNDDOWN start PGSIZE) fuel) as (out & Hrun & Hc & Hn);
    try assumption; try lia.
  - unfold ROUNDDOWN. lia.
  - unfold ROUNDDOWN. destruct (Z.leb_spec (start - start mod PGSIZE) (start + len)); [ | lia ].
    rewrite Z2Nat.id by lia. unfold x. do 2 f_equal. lia.
  - exists out. split; [ exact Hrun | ]. split; [ | exact Hn ].
    rewrite Hc, Z2Nat.id by lia. symmetry. now apply ceil_div_inexact.
Qed.

Lemma showmap_count_witness :
  exists fuel0, forall fuel, (fuel0 <= fuel)%nat ->
    exists out,
      mon_showmap fuel Examples.demo 0x1FFF 2 = (out, Some 0)
      /\ count_Mapped out = ceil_div (0x1FFF mod PGSIZE + 2) PGSIZE
      /\ no_Unmapped out = true.
Proof.
  apply (showmap_count Examples.demo 0x1FFF 2 PGSIZE).
  - discriminate.
  - discriminate.
  - reflexivity.
  - intros k Hk Hle. right.
    change (ROUNDDOWN 0x1FFF PGSIZE) with 0x1000 in *. change PGSIZE with 4096 in *.
    assert (Hcases : k = 0 \/ k = 1) by lia.
    destruct Hcases as [-> | ->]; repeat split; reflexivity.
  - discriminate.
Defined.

(** ** RangeInspector: dumpmem *)

Module DumpmemFacts.

(** A directory entry with the Superpage bit that is not present: the body
    prints one line and leaves [mstart] where it is. *)
Lemma dumpmem_body_stuck (m : Machine) (a mend : Z) :
  Z.testbit (PDE m a) 7 = true -> Z.testbit (PDE m a) 0 = false ->
  dumpmem_body m a mend = (a, [Unmapped a]).
Proof.
  intros HS HP. unfold dumpmem_body. now rewrite tst_PS, HS, tst_P, HP.
Qed.

(** ... so each turn of the loop prints the same line again. *)
Lemma dumpmem_loop_stuck (m : Machine) (a mend : Z) (fuel : nat) :
  a < mend ->
  Z.testbit (PDE m a) 7 = true -> Z.testbit (PDE m a) 0 = false ->
  dumpmem_loop fuel m a mend = (repeat (Unmapped a) fuel, None).
Proof.
  intros Hlt HS HP. induction fuel as [|fuel IH]; [ reflexivity | ].
  cbn [dumpmem_loop repeat]. destruct (Z.ltb_spec a mend); [ | lia ].
  now rewrite dumpmem_body_stuck, IH.
Qed.

End DumpmemFacts.
Import DumpmemFacts.

(** C6. The code does not do what the claim says on a directory slot that
    has the Superpage bit but is not present: dumpmem of the single byte
    at 0x800000 prints the Unmapped line for that address once per turn of
    its loop and never advances, so after any number of turns it has not
    returned; already after two turns it has printed more lines than the
    range has bytes. *)
Theorem dumpmem_absent_superpage_never_returns :
  Z.testbit (PDE Examples.demo 0x800000) 7 = true
  /\ Z.testbit (PDE Examples.demo 0x800000) 0 = false
  /\ forall fuel,
       mon_dumpmem fuel Examples.demo false 0x800000 1
       = (repeat (Unmapped 0x800000) fuel, None).
Proof.
  split; [ reflexivity | ]. split; [ reflexivity | ]. intros fuel.
  change (mon_dumpmem fuel Examples.demo false 0x800000 1)
    with (dumpmem_loop fuel Examples.demo 0x800000 0x800001).
  apply dumpmem_loop_stuck; [ lia | reflexivity .. ].
Qed.

(** ** StepController *)

Module StepFacts.

(** The mask ~FL_TF, in 32 bits, keeps every bit but bit 8. *)
Lemma testbit_not_TF (k : Z) :
  0 <= k < 32 -> Z.testbit (wrap32 (Z.lnot FL_TF)) k = negb (k =? 8).
Proof.
  intros Hk. rewrite wrap32_low, Z.lnot_spec by lia.
  change FL_TF with (Z.shiftl 1 8). rewrite testbit_single by lia.
  now rewrite Z.eqb_sym.
Qed.

Lemma testbit_TF (k : Z) : 0 <= k -> Z.testbit FL_TF k = (k =? 8).
Proof.
  intros Hk. change FL_TF with (Z.shiftl 1 8). rewrite testbit_single by lia.
  apply Z.eqb_sym.
Qed.

Lemma gate_closed (tf : option Trapframe) :
  (tf = None
   \/ exists t, tf = Some t
        /\ ((tf_trapno t <> T_DEBUG /\ tf_trapno t <> T_BRKPT)
            \/ Z.land (tf_cs t) 3 <> 3)) ->
  from_user_debug tf = false.
Proof.
  intros [-> | (t & -> & H)]; [ reflexivity | ]. cbn [from_user_debug].
  destruct (Z.eqb_spec (tf_trapno t) T_DEBUG), (Z.eqb_spec (tf_trapno t) T_BRKPT),
    (Z.eqb_spec (Z.land (tf_cs t) 3) 3); try reflexivity; exfalso; tauto.
Qed.

Lemma gate_open (t : Trapframe) :
  tf_trapno t = T_DEBUG \/ tf_trapno t = T_BRKPT -> Z.land (tf_cs t) 3 = 3 ->
  from_user_debug (Some t) = true.
Proof.
  intros Hno Hcs. cbn [from_user_debug]. rewrite Hcs.
  destruct Hno as [-> | ->]; reflexivity.
Qed.

End StepFacts.
Import StepFacts.

(** C8. For a trap context that is null, or whose trap number is neither
    debug nor breakpoint, or whose saved code segment is not at user
    privilege, step and continue return 0 (the monitor stays interactive)
    and leave the context as it is. For every other context, both return
    a negative code (the monitor resumes the trapped context) and the
    frame they leave differs from the one they got in the saved flags
    only: after step bit 8, the single-step flag, of the saved flags is
    set, after continue it is clear, and every other bit of the register,
    the trap number, the code segment and the other saved words are as
    before. *)
Theorem step_continue_gate (tf : option Trapframe) :
  ((tf = None
    \/ exists t, tf = Some t
         /\ ((tf_trapno t <> T_DEBUG /\ tf_trapno t <> T_BRKPT)
             \/ Z.land (tf_cs t) 3 <> 3)) ->
   mon_step tf = (0, tf) /\ mon_continue tf = (0, tf) /\ signal 0 = Ignored)
  /\ (forall t,
        tf = Some t ->
        tf_trapno t = T_DEBUG \/ tf_trapno t = T_BRKPT ->
        Z.land (tf_cs t) 3 = 3 ->
        exists t_step t_cont,
          mon_step tf = (-1, Some t_step)
          /\ mon_continue tf = (-1, Some t_cont)
          /\ signal (-1) = Resume
          /\ (tf_trapno t_step = tf_trapno t /\ tf_cs t_step = tf_cs t
              /\ tf_other t_step = tf_other t)
          /\ (tf_trapno t_cont = tf_trapno t /\ tf_cs t_cont = tf_cs t
              /\ tf_other t_cont = tf_other t)
          /\ Z.testbit (tf_eflags t_step) 8 = true
          /\ Z.testbit (tf_eflags t_cont) 8 = false
          /\ (forall k, 0 <= k < 32 -> k <> 8 ->
                Z.testbit (tf_eflags t_step) k = Z.testbit (tf_eflags t) k)
          /\ (forall k, 0 <= k < 32 -> k <> 8 ->
                Z.testbit (tf_eflags t_cont) k = Z.testbit (tf_eflags t) k)).
Proof.
  split.
  - intros H. unfold mon_step, mon_continue. rewrite (gate_closed tf H).
    repeat split.
  - intros t -> Hno Hcs. unfold mon_step, mon_continue.
    rewrite (gate_open t Hno Hcs). cbn [negb option_map].
    eexists _, _. split; [ reflexivity | ]. split; [ reflexivity | ].
    split; [ reflexivity | ].
    split; [ repeat split | ]. split; [ repeat split | ].
    unfold set_eflags. cbn [tf_eflags].
    split; [ | split; [ | split ] ].
    + rewrite Z.lor_spec, testbit_TF by lia. apply orb_true_r.
    + rewrite Z.land_spec, testbit_not_TF by lia. apply andb_false_r.
    + intros k Hk Hne. rewrite Z.lor_spec, testbit_TF by lia.
      destruct (Z.eqb_spec k 8); [ contradiction | apply orb_false_r ].
    + intros k Hk Hne. rewrite Z.land_spec, testbit_not_TF by lia.
      destruct (Z.eqb_spec k 8); [ contradiction | apply andb_true_r ].
Qed.

Lemma step_continue_gate_witness :
  (mon_step (Some (mkTrapframe 14 0x1B 0x202 [])) = (0, Some (mkTrapframe 14 0x1B 0x202 []))
   /\ mon_continue (Some (mkTrapframe 14 0x1B 0x202 [])) = (0, Some (mkTrapframe 14 0x1B 0x202 []))
   /\ signal 0 = Ignored)
  /\ exists t_step t_cont,
       mon_step (Some (mkTrapframe 3 0x1B 0x302 [7])) = (-1, Some t_step)
       /\ mon_continue (Some (mkTrapframe 3 0x1B 0x302 [7])) = (-1, Some t_cont)
       /\ signal (-1) = Resume
       /\ (tf_trapno t_step = 3 /\ tf_cs t_step = 0x1B /\ tf_other t_step = [7])
       /\ (tf_trapno t_cont = 3 /\ tf_cs t_cont = 0x1B /\ tf_other t_cont = [7])
       /\ Z.testbit (tf_eflags t_step) 8 = true
       /\ Z.testbit (tf_eflags t_cont) 8 = false
       /\ (forall k, 0 <= k < 32 -> k <> 8 ->
             Z.testbit (tf_eflags t_step) k = Z.testbit 0x302 k)
       /\ (forall k, 0 <= k < 32 -> k <> 8 ->
             Z.testbit (tf_eflags t_cont) k = Z.testbit 0x302 k).
Proof.
  split.
  - apply (proj1 (step_continue_gate (Some (mkTrapframe 14 0x1B 0x202 [])))).
    right. eexists. split; [ reflexivity | ]. left. cbn. split; discriminate.
  - apply (proj2 (step_continue_gate (Some (mkTrapframe 3 0x1B 0x302 [7])))
             (mkTrapframe 3 0x1B 0x302 [7]) eq_refl).
    + right. reflexivity.
    + reflexivity.
Defined.

(** ** StackUnwinder *)

Module BacktraceFacts.

Section Chains.

Variable debuginfo_eip : Z -> Eipdebuginfo.

(** On a chain the loop ends, and prints the frames of the chain from its
    head on. *)
Lemma backtrace_loop_chain (m : Machine) (fp : Z) (chain : list Z) :
  fp_chain m fp chain ->
  forall fuel, (length chain < fuel)%nat ->
    backtrace_loop debuginfo_eip fuel m fp
    = Some (map (backtrace_frame debuginfo_eip m) chain).
Proof.
  induction 1 as [|fp rest Hnz Hrest IH]; intros fuel Hfuel;
    (destruct fuel as [|fuel]; [ cbn in Hfuel; lia | ]); cbn [backtrace_loop].
  - reflexivity.
  - destruct (Z.eqb_spec fp 0) as [?|_]; [ contradiction | ].
    rewrite IH by (cbn [length] in Hfuel; lia). reflexivity.
Qed.

Lemma wrap32_add_l (a b : Z) : wrap32 (wrap32 a + b) = wrap32 (a + b).
Proof. unfold wrap32. apply Zplus_mod_idemp_l. Qed.

(** What a printed frame holds. *)
Lemma backtrace_frame_words (m : Machine) (ebp : Z) :
  sf_ebp (fst (backtrace_frame debuginfo_eip m ebp)) = ebp
  /\ sf_eip (fst (backtrace_frame debuginfo_eip m ebp)) = read32 m (wrap32 (ebp + 4))
  /\ sf_args (fst (backtrace_frame debuginfo_eip m ebp)) =
     [read32 m (wrap32 (ebp + 8)); read32 m (wrap32 (ebp + 12));
      read32 m (wrap32 (ebp + 16)); read32 m (wrap32 (ebp + 20))].
Proof.
  unfold backtrace_frame. cbn [fst sf_ebp sf_eip sf_args map].
  split; [ reflexivity | ]. split; [ reflexivity | ].
  rewrite !wrap32_add_l.
  replace (ebp + 8 + 4 * 0) with (ebp + 8) by lia.
  replace (ebp + 8 + 4 * 1) with (ebp + 12) by lia.
  replace (ebp + 8 + 4 * 2) with (ebp + 16) by lia.
  replace (ebp + 8 + 4 * 3) with (ebp + 20) by lia.
  reflexivity.
Qed.

End Chains.

End BacktraceFacts.
Import BacktraceFacts.

(** C9, as stated, fails on the code: on the chain 0xF010FF00 ->
    0xF010FF40 -> 0 the first frame printed is the one backtrace starts
    from, 0xF010FF00, the callee, and its caller 0xF010FF40 comes second:
    the order is not caller-to-callee. *)
Lemma backtrace_order_counterexample :
  fp_chain Examples.stack 0xF010FF00 [0xF010FF00; 0xF010FF40]
  /\ exists frames,
       mon_backtrace Examples.no_symbols 3 Examples.stack 0xF010FF00 = Some (frames, 0)
       /\ map (fun fr => sf_ebp (fst fr)) frames = [0xF010FF00; 0xF010FF40]
       /\ map (fun fr => sf_ebp (fst fr)) frames <> [0xF010FF40; 0xF010FF00].
Proof.
  split.
  - apply fp_chain_next; [ discriminate | ].
    change (read32 Examples.stack 0xF010FF00) with 0xF010FF40.
    apply fp_chain_next; [ discriminate | ].
    change (read32 Examples.stack 0xF010FF40) with 0.
    apply fp_chain_end.
  - eexists. split; [ vm_compute; reflexivity | ].
    split; [ reflexivity | ]. cbn. discriminate.
Qed.

(** C9, amended. For every frame-pointer chain fp0 -> fp1 -> ... -> 0 of
    length N, backtrace terminates when the frame pointer reaches zero and
    prints exactly N frames, in the order of the chain, that is from the
    frame it starts in outwards (callee before caller); each frame shows
    the return address read from the word above the frame pointer and
    exactly four argument words read from the slots above that. *)
Theorem backtrace_chain (debuginfo_eip : Z -> Eipdebuginfo)
    (m : Machine) (fp0 : Z) (chain : list Z) :
  fp_chain m fp0 chain ->
  forall fuel, (length chain < fuel)%nat ->
    exists frames,
      mon_backtrace debuginfo_eip fuel m fp0 = Some (frames, 0)
      /\ length frames = length chain
      /\ map (fun fr => sf_ebp (fst fr)) frames = chain
      /\ Forall (fun fr =>
           sf_eip (fst fr) = read32 m (wrap32 (sf_ebp (fst fr) + 4))
           /\ sf_args (fst fr) =
              [read32 m (wrap32 (sf_ebp (fst fr) + 8));
               read32 m (wrap32 (sf_ebp (fst fr) + 12));
               read32 m (wrap32 (sf_ebp (fst fr) + 16));
               read32 m (wrap32 (sf_ebp (fst fr) + 20))]) frames.
Proof.
  intros Hchain fuel Hfuel. unfold mon_backtrace.
  rewrite (backtrace_loop_chain debuginfo_eip m fp0 chain Hchain fuel Hfuel).
  eexists. split; [ reflexivity | ].
  split; [ apply length_map | ].
  split.
  - clear. induction chain as [|fp rest IH]; [ reflexivity | ].
    cbn [map]. rewrite IH. reflexivity.
  - clear. induction chain as [|fp rest IH]; cbn [map]; constructor; [ | exact IH ].
    destruct (backtrace_frame_words debuginfo_eip m fp) as (He & Hi & Ha).
    rewrite He. split; assumption.
Qed.

Lemma backtrace_chain_witness :
  exists frames,
    mon_backtrace Examples.no_symbols 3 Examples.stack 0xF010FF00 = Some (frames, 0)
    /\ length frames = 2%nat
    /\ map (fun fr => sf_ebp (fst fr)) frames = [0xF010FF00; 0xF010FF40]
    /\ Forall (fun fr =>
         sf_eip (fst fr) = read32 Examples.stack (wrap32 (sf_ebp (fst fr) + 4))
         /\ sf_args (fst fr) =
            [read32 Examples.stack (wrap32 (sf_ebp (fst fr) + 8));
             read32 Examples.stack (wrap32 (sf_ebp (fst fr) + 12));
             read32 Examples.stack (wrap32 (sf_ebp (fst fr) + 16));
             read32 Examples.stack (wrap32 (sf_ebp (fst fr) + 20))]) frames.
Proof.
  apply (backtrace_chain Examples.no_symbols Examples.stack 0xF010FF00
           [0xF010FF00; 0xF010FF40]).
  - apply fp_chain_next; [ discriminate | ].
    change (read32 Examples.stack 0xF010FF00) with 0xF010FF40.
    apply fp_chain_next; [ discriminate | ].
    change (read32 Examples.stack 0xF010FF40) with 0.
    apply fp_chain_end.
  - cbn. lia.
Defined.

(** * Further properties of the monitor *)

(** ** PermissionCodec, beyond the round trip *)

Module CodecMore.

(** Subtracting 0x200 leaves the nine low bits as they are. *)
Lemma low9_sub (perm i : Z) :
  0 <= i < 9 -> Z.testbit (perm - 0x200) i = Z.testbit perm i.
Proof.
  intros Hi.
  rewrite <- (Z.mod_pow2_bits_low (perm - 0x200) 9 i) by lia.
  rewrite <- (Z.mod_pow2_bits_low perm 9 i) by lia.
  f_equal. replace (perm - 0x200) with (perm + (-1) * 2 ^ 9) by lia.
  apply Z_mod_plus_full.
Qed.

(** The loop of [perm2str] reads the bits below [n] only. *)
Lemma perm2str_loop_ext (n : nat) (p q : Z) :
  (forall i, 0 <= i < Z.of_nat n -> Z.testbit p i = Z.testbit q i) ->
  perm2str_loop n p = perm2str_loop n q.
Proof.
  induction n as [|n IH]; intros H; [ reflexivity | ].
  cbn [perm2str_loop]. rewrite !tst_single by lia.
  rewrite (H (Z.of_nat n)) by lia. f_equal. apply IH. intros i Hi. apply H. lia.
Qed.

(** The characters written for a 32-bit value are those of its low bits. *)
Lemma perm2str_chars (perm : Z) :
  0 <= perm < 2 ^ 32 -> snd (perm2str perm) = perm2str_loop 9 perm.
Proof.
  intros Hp. unfold perm2str. destruct (Z.leb_spec 0x200 perm); [ | reflexivity ].
  cbn [snd]. apply perm2str_loop_ext. intros i Hi.
  rewrite wrap32_low by lia. apply low9_sub. lia.
Qed.

(** The loop of [str2perm] on a string without NUL, bit by bit. *)
Lemma str2perm_loop_bits_nonul (s : list ascii) (acc k : Z) :
  forallb (fun c => negb (Ascii.eqb c NUL)) s = true ->
  Z.testbit (str2perm_loop s acc) k =
  Z.testbit acc k || existsb (fun c => Z.testbit (char2perm c) k) s.
Proof.
  revert acc. induction s as [|c rest IH]; intros acc Hs.
  - cbn [str2perm_loop existsb]. now rewrite orb_false_r.
  - cbn [forallb] in Hs. apply andb_prop in Hs. destruct Hs as [Hc Hrest].
    cbn [str2perm_loop existsb]. destruct (Ascii.eqb c NUL); [ discriminate Hc | ].
    rewrite IH, Z.lor_spec by exact Hrest. now rewrite orb_assoc.
Qed.

Lemma existsb_same_members {A} (f : A -> bool) (s1 s2 : list A) :
  (forall c, In c s1 <-> In c s2) -> existsb f s1 = existsb f s2.
Proof.
  intros H. apply eq_true_iff_eq. rewrite !existsb_exists.
  split; intros (c & Hin & Hc); exists c; (split; [ apply H, Hin | exact Hc ]).
Qed.

Lemma strncpy_firstn (n : nat) (s : list ascii) :
  strncpy n s = strncpy n (firstn n s).
Proof.
  revert s. induction n as [|n IH]; intros s; [ reflexivity | ].
  destruct s as [|c rest]; [ reflexivity | ]. cbn [strncpy firstn].
  destruct (Ascii.eqb c NUL); [ reflexivity | ]. f_equal. apply IH.
Qed.

(** A non-negative number without bits from position [n] on is below [2 ^ n]. *)
Lemma below_pow2 (n x : Z) :
  0 <= n -> 0 <= x -> (forall k, n <= k -> Z.testbit x k = false) -> x < 2 ^ n.
Proof.
  intros Hn Hx Hbits. destruct (Z.eq_dec x 0) as [->|Hne].
  - apply Z.pow_pos_nonneg; lia.
  - apply Z.log2_lt_pow2; [ lia | ].
    destruct (Z.lt_ge_cases (Z.log2 x) n) as [|Hge]; [ assumption | ].
    pose proof (Z.bit_log2 x ltac:(lia)) as Hb.
    rewrite Hbits in Hb by lia. discriminate Hb.
Qed.

End CodecMore.
Import CodecMore.

(** X1. What perm2str writes, position by position: for every 32-bit value,
    the character at position k (k from 0 to 8) is the k-th letter of
    "GSDACTUWP" when bit 8 - k is set and a dash otherwise, whatever the
    bits from 9 on are; the warning is printed exactly for values from
    0x200 on. *)
Theorem perm2str_positions (perm : Z) (k : nat) :
  0 <= perm < 2 ^ 32 -> (k < 9)%nat ->
  fst (perm2str perm) = (0x200 <=? perm)
  /\ length (snd (perm2str perm)) = 9%nat
  /\ nth k (snd (perm2str perm)) NUL =
     if Z.testbit perm (8 - Z.of_nat k)
     then nth k (list_ascii_of_string "GSDACTUWP") NUL
     else "-"%char.
Proof.
  intros Hp Hk. split; [ | split ].
  - unfold perm2str. now destruct (0x200 <=? perm).
  - rewrite perm2str_chars by exact Hp. apply perm2str_loop_length.
  - rewrite perm2str_chars, perm2str_loop_nth by assumption.
    replace (Z.of_nat (9 - 1 - k)) with (8 - Z.of_nat k) by lia.
    destruct (Z.testbit perm (8 - Z.of_nat k)); [ | reflexivity ].
    do 9 (destruct k as [|k]; [ reflexivity | ]). lia.
Qed.

Lemma perm2str_positions_witness :
  fst (perm2str 0x603) = (0x200 <=? 0x603)
  /\ length (snd (perm2str 0x603)) = 9%nat
  /\ nth 7 (snd (perm2str 0x603)) NUL =
     if Z.testbit 0x603 (8 - Z.of_nat 7)
     then nth 7 (list_ascii_of_string "GSDACTUWP") NUL
     else "-"%char.
Proof. apply (perm2str_positions 0x603 7); [ split; [ discriminate | reflexivity ] | lia ]. Defined.

(** X2. perm2str tells 9-bit permission sets apart: two different sets
    get different strings. *)
Theorem perm2str_injective (p q : Z) :
  0 <= p < 0x200 -> 0 <= q < 0x200 -> p <> q ->
  snd (perm2str p) <> snd (perm2str q).
Proof.
  intros Hp Hq Hne H. apply Hne. rewrite !perm2str_chars in H by lia.
  assert (Hdec : forall x, 0 <= x < 0x200 ->
            str2perm_loop (letters (perm2str_loop 9 x)) 0 = x).
  { intros x Hx. rewrite str2perm_loop_letters, Z.lor_0_l by lia.
    rewrite Z.land_ones by lia. apply Z.mod_small. cbn. lia. }
  rewrite <- (Hdec p Hp), <- (Hdec q Hq). now rewrite H.
Qed.

Lemma perm2str_injective_witness :
  (0 <= 0x6 < 0x200) /\ (0 <= 0x4 < 0x200)
  /\ snd (perm2str 0x6) <> snd (perm2str 0x4).
Proof.
  split; [ split; (discriminate || reflexivity) | ].
  split; [ split; (discriminate || reflexivity) | ].
  apply (perm2str_injective 0x6 0x4);
    [ split; (discriminate || reflexivity) .. | discriminate ].
Defined.

(** X3. str2perm never panics: for every buffer it returns a 32-bit value
    whose Present bit is clear. *)
Theorem str2perm_total (str : list ascii) :
  exists p, str2perm str = Ok p /\ 0 <= p < 2 ^ 32 /\ Z.testbit p 0 = false.
Proof.
  exists (Z.land (str2perm_loop str 0) 0xFFFFFFFE).
  split; [ apply str2perm_Ok | ].
  pose proof (str2perm_loop_nonneg str 0 ltac:(lia)) as Hn.
  split.
  - split; [ apply Z.land_nonneg; lia | ].
    apply below_pow2; [ lia | apply Z.land_nonneg; lia | ].
    intros k Hk. rewrite Z.land_spec, testbit_not_P by lia.
    destruct (Z.ltb_spec k 32); [ lia | now rewrite !andb_false_r ].
  - rewrite Z.land_spec, testbit_not_P by lia. apply andb_false_r.
Qed.

(** X4. The decoded set depends on which characters occur, not on their
    order or number: two NUL-free strings with the same characters decode
    to the same value. *)
Theorem str2perm_same_members (s1 s2 : list ascii) :
  forallb (fun c => negb (Ascii.eqb c NUL)) s1 = true ->
  forallb (fun c => negb (Ascii.eqb c NUL)) s2 = true ->
  (forall c, In c s1 <-> In c s2) ->
  str2perm s1 = str2perm s2.
Proof.
  intros H1 H2 Hmem. rewrite !str2perm_Ok. do 2 f_equal.
  apply Z.bits_inj'. intros k Hk.
  rewrite !str2perm_loop_bits_nonul by assumption.
  f_equal. now apply existsb_same_members.
Qed.

Lemma str2perm_same_members_witness :
  str2perm (list_ascii_of_string "WUW") = str2perm (list_ascii_of_string "UW").
Proof.
  apply str2perm_same_members; [ reflexivity | reflexivity | ].
  intros c. cbn [list_ascii_of_string In]. tauto.
Defined.

(** X5. A character without mnemonic, met before the terminating NUL, is
    accepted: str2perm returns normally, with all 31 bits above Present
    set, whatever else the string holds. *)
Theorem str2perm_accepts_unknown (pre post : list ascii) (c : ascii) :
  forallb (fun x => negb (Ascii.eqb x NUL)) pre = true ->
  Ascii.eqb c NUL = false -> is_mnemonic c = false ->
  str2perm (pre ++ c :: post) = Ok 0xFFFFFFFE.
Proof. intros Hpre Hc Hunk. now apply str2perm_unknown_char. Qed.

Lemma str2perm_accepts_unknown_witness :
  str2perm (list_ascii_of_string "W" ++ "-"%char :: list_ascii_of_string "U")
  = Ok 0xFFFFFFFE.
Proof. apply str2perm_accepts_unknown; reflexivity. Defined.

(** ** PermissionMutator, beyond the frame property *)

Module SetpermMore.

(** The three tests of [mon_setperm], read as bits. *)
Lemma setperm_unfold (m : Machine) (addr : Z) (s : list ascii) :
  exists p,
    str2perm (strncpy 9 s ++ [NUL]) = Ok p
    /\ mon_setperm m addr s =
       let va := wrap32 addr in
       let perm := wrap16 p in
       if Z.testbit (PDE m va) 7 then
         if Z.testbit (PDE m va) 0 then
           let m' := write32 m (PDE_PTR m va)
                       (Z.lor (Z.lor (Z.lor (Z.land (PDE m va) 0xFFFFF000) perm)
                                     PTE_P) PTE_PS) in
           Ok (0, m', [NewMapping va
                         (Z.lor (Z.lor (PTE_ADDR (read32 m' (PDE_PTR m va)))
                                       (Z.shiftl (PTX va) PTXSHIFT)) (PGOFF va))
                         (PERM (read32 m' (PDE_PTR m va)))])
         else Ok (1, m, [NoSuchMapping])
       else if Z.testbit (PDE m va) 0 then
         if Z.testbit (PTE m va) 0 then
           let m' := write32 m (PTE_PTR m va)
                       (Z.lor (Z.lor (Z.land (PTE m va) 0xFFFFF000)
                                     (Z.land perm 0xFFF)) PTE_P) in
           Ok (0, m', [NewMapping va
                         (Z.lor (PTE_ADDR (read32 m' (PTE_PTR m va))) (PGOFF va))
                         (PERM (read32 m' (PTE_PTR m va)))])
         else Ok (1, m, [NoSuchMapping])
       else Ok (1, m, [NoSuchMapping]).
Proof.
  exists (Z.land (str2perm_loop (strncpy 9 s ++ [NUL]) 0) 0xFFFFFFFE).
  split; [ apply str2perm_Ok | ].
  unfold mon_setperm. cbv zeta. rewrite str2perm_Ok. cbn [bind].
  change (wrap32 (Z.lnot 0xFFF)) with 0xFFFFF000.
  rewrite tst_PS. fold (PDE m (wrap32 addr)).
  destruct (Z.testbit (PDE m (wrap32 addr)) 7).
  - now rewrite tst_P.
  - unfold pgdir_walk. rewrite tst_P.
    destruct (Z.testbit (PDE m (wrap32 addr)) 0); [ | reflexivity ].
    rewrite tst_P. fold (PTE m (wrap32 addr)). reflexivity.
Qed.

End SetpermMore.
Import SetpermMore.

(** X6. setperm reads at most nine characters of the permission string:
    whatever follows the ninth is ignored. *)
Theorem setperm_nine_characters (m : Machine) (addr : Z) (s : list ascii) :
  mon_setperm m addr s = mon_setperm m addr (firstn 9 s).
Proof. unfold mon_setperm. now rewrite (strncpy_firstn 9 s). Qed.

(** X7. Where there is no present mapping for the address (directory entry
    not present, superpage entry not present, or leaf entry not present),
    setperm returns 1 after printing "No such mapping" and leaves memory
    as it is, for every permission string. *)
Theorem setperm_no_mapping (m : Machine) (addr : Z) (s : list ascii) :
  (forall sp e, ~ present_mapping m (wrap32 addr) sp e) ->
  mon_setperm m addr s = Ok (1, m, [NoSuchMapping]).
Proof.
  intros Hno. destruct (setperm_unfold m addr s) as (p & _ & ->). cbv zeta.
  destruct (Z.testbit (PDE m (wrap32 addr)) 7) eqn:HS,
           (Z.testbit (PDE m (wrap32 addr)) 0) eqn:HP; try reflexivity.
  - exfalso. apply (Hno true (PDE_PTR m (wrap32 addr))). now apply present_superpage.
  - destruct (Z.testbit (PTE m (wrap32 addr)) 0) eqn:HL; [ | reflexivity ].
    exfalso. apply (Hno false (PTE_PTR m (wrap32 addr))). now apply present_leaf.
Qed.

Lemma setperm_no_mapping_witness :
  mon_setperm Examples.demo 0x3000 (list_ascii_of_string "W")
  = Ok (1, Examples.demo, [NoSuchMapping]).
Proof.
  apply setperm_no_mapping. intros sp e H.
  inversion H as [HS HP | HS HP HL]; [ discriminate HS | discriminate HL ].
Defined.

(** X8. On an existing present mapping setperm succeeds for every string,
    mnemonic or not: it returns 0, writes the targeted entry only, and the
    entry it leaves is present; in a leaf entry the bits from 12 on stay
    as they were. *)
Theorem setperm_any_string (m : Machine) (addr : Z) (s : list ascii) (sp : bool) (e : Z) :
  present_mapping m (wrap32 addr) sp e ->
  exists new out,
    mon_setperm m addr s = Ok (0, write32 m e new, out)
    /\ (forall a, a <> e -> read32 (write32 m e new) a = read32 m a)
    /\ Z.testbit (read32 (write32 m e new) e) 0 = true
    /\ (sp = false -> forall k, 12 <= k ->
          Z.testbit (read32 (write32 m e new) e) k = Z.testbit (read32 m e) k).
Proof.
  intros Hmap. destruct (setperm_unfold m addr s) as (p & _ & ->). cbv zeta.
  destruct Hmap as [HS HP | HS HP HL].
  - rewrite HS, HP. eexists _, _. split; [ reflexivity | ].
    split; [ intros a Ha; apply read32_write32_ne; congruence | ].
    rewrite read32_write32_eq. split; [ | discriminate ].
    rewrite wrap32_low, !Z.lor_spec, testbit_P, testbit_PS by lia.
    cbn. now rewrite orb_true_r.
  - rewrite HS, HP, HL. eexists _, _. split; [ reflexivity | ].
    split; [ intros a Ha; apply read32_write32_ne; congruence | ].
    rewrite read32_write32_eq. split.
    + rewrite wrap32_low, !Z.lor_spec, testbit_P by lia.
      cbn. now rewrite orb_true_r.
    + intros _ k Hk. fold (PTE m (wrap32 addr)).
      destruct (Z.ltb_spec k 32) as [Hlt|Hge].
      * rewrite wrap32_low, !Z.lor_spec, !Z.land_spec by lia.
        rewrite testbit_P, testbit_addr_mask, testbit_perm_mask by lia. split_bits.
      * rewrite wrap32_high by lia. symmetry. apply wrap32_high. lia.
Qed.

Lemma setperm_any_string_witness :
  exists new out,
    mon_setperm Examples.demo 0x1000 (list_ascii_of_string "w?") =
    Ok (0, write32 Examples.demo 0xF0200004 new, out)
    /\ (forall a, a <> 0xF0200004 ->
          read32 (write32 Examples.demo 0xF0200004 new) a = read32 Examples.demo a)
    /\ Z.testbit (read32 (write32 Examples.demo 0xF0200004 new) 0xF0200004) 0 = true
    /\ (false = false -> forall k, 12 <= k ->
          Z.testbit (read32 (write32 Examples.demo 0xF0200004 new) 0xF0200004) k
          = Z.testbit (read32 Examples.demo 0xF0200004) k).
Proof.
  apply (setperm_any_string Examples.demo 0x1000 (list_ascii_of_string "w?") false).
  change 0xF0200004 with (PTE_PTR Examples.demo (wrap32 0x1000)).
  apply present_leaf; reflexivity.
Defined.

Module SetpermTwice.

(** The entry a leaf write leaves, for a decoded set below 0x200. *)
Lemma leaf_entry_bits (old perm : Z) :
  0 <= old < 2 ^ 32 -> (forall k, 9 <= k -> Z.testbit perm k = false) ->
  forall k, 0 <= k ->
    Z.testbit (Z.lor (Z.lor (Z.land old 0xFFFFF000) (Z.land perm 0xFFF)) PTE_P) k
    = if k <? 12 then Z.testbit perm k || (k =? 0) else Z.testbit old k.
Proof.
  intros Hold Hhi k Hk.
  rewrite !Z.lor_spec, !Z.land_spec, testbit_P, testbit_addr_mask, testbit_perm_mask by lia.
  destruct (Z.ltb_spec k 12).
  - rewrite Z.eqb_sym. split_bits.
  - rewrite Hhi by lia. destruct (Z.ltb_spec k 32).
    + split_bits.
    + rewrite (small_high 32 old k) by lia. split_bits.
Qed.

(** The entry a superpage write leaves, for a decoded set below 0x200. *)
Lemma superpage_entry_bits (old perm : Z) :
  0 <= old < 2 ^ 32 -> (forall k, 9 <= k -> Z.testbit perm k = false) ->
  forall k, 0 <= k ->
    Z.testbit (Z.lor (Z.lor (Z.lor (Z.land old 0xFFFFF000) perm) PTE_P) PTE_PS) k
    = if k <? 12 then Z.testbit perm k || (k =? 0) || (k =? 7) else Z.testbit old k.
Proof.
  intros Hold Hhi k Hk.
  rewrite !Z.lor_spec, !Z.land_spec, testbit_P, testbit_PS, testbit_addr_mask by lia.
  destruct (Z.ltb_spec k 12).
  - rewrite (Z.eqb_sym 0 k), (Z.eqb_sym 7 k). split_bits.
  - rewrite Hhi by lia. destruct (Z.ltb_spec k 32).
    + split_bits.
    + rewrite (small_high 32 old k) by lia. split_bits.
Qed.

Lemma wrap32_by_bits (x : Z) :
  (forall k, 32 <= k -> Z.testbit x k = false) -> wrap32 x = x.
Proof.
  intros H. apply Z.bits_inj'. intros k Hk. destruct (Z.ltb_spec k 32).
  - now apply wrap32_low.
  - now rewrite wrap32_high, H by lia.
Qed.

Lemma read32_range (m : Machine) (a : Z) : 0 <= read32 m a < 2 ^ 32.
Proof. apply wrap32_range. Qed.

Lemma write32_twice (m : Machine) (a v : Z) :
  write32 (write32 m a v) a v = write32 m a v.
Proof. unfold write32. cbn [pgdir mem vbyte]. now rewrite insert_insert_eq. Qed.

Lemma PDE_PTR_write (m : Machine) (a v va : Z) :
  PDE_PTR (write32 m a v) va = PDE_PTR m va.
Proof. reflexivity. Qed.

Lemma PDE_write_eq (m : Machine) (v va : Z) :
  PDE (write32 m (PDE_PTR m va) v) va = wrap32 v.
Proof. unfold PDE. rewrite PDE_PTR_write. apply read32_write32_eq. Qed.

Lemma PDE_write_ne (m : Machine) (a v va : Z) :
  a <> PDE_PTR m va -> PDE (write32 m a v) va = PDE m va.
Proof. intros H. unfold PDE. rewrite PDE_PTR_write. now apply read32_write32_ne. Qed.

(** Writing a leaf entry that keeps its address bits and is not the
    directory entry: the walk ends at the same entry, which now holds the
    value written. *)
Lemma PTE_write_ne (m : Machine) (v va : Z) :
  PTE_PTR m va <> PDE_PTR m va ->
  PTE_PTR (write32 m (PTE_PTR m va) v) va = PTE_PTR m va
  /\ PTE (write32 m (PTE_PTR m va) v) va = wrap32 v.
Proof.
  intros H.
  assert (E : PTE_PTR (write32 m (PTE_PTR m va) v) va = PTE_PTR m va)
    by (unfold PTE_PTR at 1; now rewrite PDE_write_ne).
  split; [ exact E | ]. unfold PTE. rewrite E. apply read32_write32_eq.
Qed.

(** The same when the leaf entry is the directory entry itself, provided
    the address bits written are those the directory entry had. *)
Lemma PTE_write_self (m : Machine) (v va : Z) :
  PTE_PTR m va = PDE_PTR m va -> PTE_ADDR (wrap32 v) = PTE_ADDR (PDE m va) ->
  PTE_PTR (write32 m (PTE_PTR m va) v) va = PTE_PTR m va
  /\ PTE (write32 m (PTE_PTR m va) v) va = wrap32 v.
Proof.
  intros H Haddr.
  assert (E : PTE_PTR (write32 m (PTE_PTR m va) v) va = PTE_PTR m va).
  { unfold PTE_PTR at 1. rewrite H at 1. rewrite PDE_write_eq, Haddr. reflexivity. }
  split; [ exact E | ]. unfold PTE. rewrite E. apply read32_write32_eq.
Qed.

(** Evaluates the comparisons of bit positions that are numerals. *)
Ltac bits_known :=
  cbn [Z.ltb Z.eqb Z.compare Pos.compare Pos.compare_cont Pos.eqb orb];
  rewrite ?orb_false_r, ?orb_true_r; cbn [orb].

End SetpermTwice.
Import SetpermTwice.

(** X9. For a permission string of mnemonic letters setperm is idempotent:
    running the same command again returns the same code and leaves
    memory exactly as the first run left it. *)
Theorem setperm_idempotent (m m1 : Machine) (addr r : Z) (s : list ascii)
    (out : list Observation) :
  forallb is_mnemonic s = true ->
  mon_setperm m addr s = Ok (r, m1, out) ->
  exists out', mon_setperm m1 addr s = Ok (r, m1, out').
Proof.
  intros Hs Hrun.
  destruct (decoded_perm s Hs) as (p & Hp & H16 & Hhi & Hp0 & Hp7).
  destruct (setperm_unfold m addr s) as (p1 & Hp1 & E1).
  destruct (setperm_unfold m1 addr s) as (p2 & Hp2 & E2).
  rewrite Hp in Hp1, Hp2. injection Hp1 as <-. injection Hp2 as <-.
  rewrite E1 in Hrun. rewrite E2. cbv zeta in Hrun |- *. rewrite H16 in Hrun |- *.
  clear E1 E2 Hp H16 Hs Hp7.
  set (va := wrap32 addr) in *.
  assert (Hpde : 0 <= PDE m va < 2 ^ 32) by apply wrap32_range.
  assert (Hpte : 0 <= PTE m va < 2 ^ 32) by apply wrap32_range.
  destruct (Z.testbit (PDE m va) 7) eqn:HS.
  - destruct (Z.testbit (PDE m va) 0) eqn:HP; injection Hrun as <- <- <-.
    + (* a superpage was rewritten *)
      set (new := Z.lor (Z.lor (Z.lor (Z.land (PDE m va) 0xFFFFF000) p) PTE_P) PTE_PS).
      assert (Hnew : forall k, 0 <= k ->
                Z.testbit new k
                = if k <? 12 then Z.testbit p k || (k =? 0) || (k =? 7)
                  else Z.testbit (PDE m va) k)
        by (apply superpage_entry_bits; assumption).
      assert (Hw : wrap32 new = new).
      { apply wrap32_by_bits. intros k Hk. rewrite Hnew by lia.
        destruct (Z.ltb_spec k 12); [ lia | ]. apply (small_high 32); lia. }
      rewrite PDE_write_eq, Hw, PDE_PTR_write, !Hnew by lia.
      bits_known.
      replace (Z.lor (Z.lor (Z.lor (Z.land new 0xFFFFF000) p) PTE_P) PTE_PS) with new.
      * rewrite write32_twice. eexists. reflexivity.
      * apply Z.bits_inj'. intros k Hk.
        rewrite (superpage_entry_bits new p)
          by first [ assumption | lia | rewrite <- Hw; apply wrap32_range ].
        rewrite Hnew by lia. destruct (Z.ltb_spec k 12); reflexivity.
    + rewrite HS, HP. eexists. reflexivity.
  - destruct (Z.testbit (PDE m va) 0) eqn:HP.
    + destruct (Z.testbit (PTE m va) 0) eqn:HL; injection Hrun as <- <- <-.
      * (* a leaf was rewritten *)
        set (new := Z.lor (Z.lor (Z.land (PTE m va) 0xFFFFF000) (Z.land p 0xFFF)) PTE_P).
        assert (Hnew : forall k, 0 <= k ->
                  Z.testbit new k
                  = if k <? 12 then Z.testbit p k || (k =? 0)
                    else Z.testbit (PTE m va) k)
          by (apply leaf_entry_bits; assumption).
        assert (Hw : wrap32 new = new).
        { apply wrap32_by_bits. intros k Hk. rewrite Hnew by lia.
          destruct (Z.ltb_spec k 12); [ lia | ]. apply (small_high 32); lia. }
        assert (Haddr : PTE_ADDR new = PTE_ADDR (PTE m va)).
        { unfold PTE_ADDR. apply Z.bits_inj'. intros k Hk.
          rewrite !Z.land_spec, Hnew, testbit_addr_mask by lia.
          destruct (Z.ltb_spec k 12); [ | reflexivity ].
          destruct (Z.leb_spec 12 k); [ lia | ]. now rewrite !andb_false_r. }
        assert (Hself : Z.lor (Z.lor (Z.land new 0xFFFFF000) (Z.land p 0xFFF)) PTE_P = new).
        { apply Z.bits_inj'. intros k Hk.
          rewrite (leaf_entry_bits new p)
            by first [ assumption | lia | rewrite <- Hw; apply wrap32_range ].
          rewrite Hnew by lia. destruct (Z.ltb_spec k 12); reflexivity. }
        destruct (Z.eq_dec (PTE_PTR m va) (PDE_PTR m va)) as [Heq | Hne].
        -- (* the leaf entry is the directory entry itself *)
           assert (Hsame : PTE m va = PDE m va)
             by (unfold PTE, PDE; now rewrite Heq).
           assert (E : PDE (write32 m (PTE_PTR m va) new) va = new)
             by (rewrite Heq at 1; now rewrite PDE_write_eq).
           rewrite E, PDE_PTR_write, !Hnew by lia.
           bits_known.
           destruct (Z.testbit p 7) eqn:H7.
           ++ rewrite <- Heq.
              replace (Z.lor (Z.lor (Z.lor (Z.land new 0xFFFFF000) p) PTE_P) PTE_PS)
                with new.
              ** rewrite write32_twice. eexists. reflexivity.
              ** apply Z.bits_inj'. intros k Hk.
                 rewrite (superpage_entry_bits new p)
                   by first [ assumption | lia | rewrite <- Hw; apply wrap32_range ].
                 rewrite Hnew by lia. destruct (Z.ltb_spec k 12); [ | reflexivity ].
                 destruct (Z.eqb_spec k 7) as [-> | _];
                   [ now rewrite H7 | now rewrite orb_false_r ].
           ++ destruct (PTE_write_self m new va Heq) as [Ee Ev];
                [ rewrite Hw, Haddr, Hsame; reflexivity | ].
              rewrite Ev, Ee, Hw, Hnew by lia.
              bits_known. rewrite Hself, write32_twice. eexists. reflexivity.
        -- (* the usual case: two different entries *)
           destruct (PTE_write_ne m new va Hne) as [Ee Ev].
           rewrite PDE_write_ne, HS, HP, Ev, Ee, Hw, Hnew by assumption || lia.
           bits_known. rewrite Hself, write32_twice. eexists. reflexivity.
      * rewrite HS, HP, HL. eexists. reflexivity.
    + injection Hrun as <- <- <-. rewrite HS, HP. eexists. reflexivity.
Qed.

Lemma setperm_idempotent_witness :
  exists out',
    mon_setperm (write32 Examples.demo 0xF0200004 0x00345007) 0x1000
                (list_ascii_of_string "WU")
    = Ok (0, write32 Examples.demo 0xF0200004 0x00345007, out').
Proof.
  apply (setperm_idempotent Examples.demo _ 0x1000 0 (list_ascii_of_string "WU")
           [NewMapping 0x1000 0x00345000 7]).
  - reflexivity.
  - vm_compute. reflexivity.
Defined.

Module SetpermShowmap.

(** After setperm on a present small page, what the body of the showmap
    loop prints for that page. *)
Lemma setperm_showmap_body (m : Machine) (addr : Z) (s : list ascii) :
  forallb is_mnemonic s = true ->
  present_mapping m (wrap32 addr) false (PTE_PTR m (wrap32 addr)) ->
  PTE_PTR m (wrap32 addr) <> PDE_PTR m (wrap32 addr) ->
  exists m1 out p shown,
    mon_setperm m addr s = Ok (0, m1, out)
    /\ str2perm (strncpy 9 s ++ [NUL]) = Ok p
    /\ showmap_body m1 (wrap32 addr)
       = Continue (wrap32 (wrap32 addr + PGSIZE))
                  [PtePerm (Z.lor p PTE_P);
                   Mapped false (wrap32 addr) (PTE_ADDR (PDE m (wrap32 addr))) shown]
    /\ nth 8 shown NUL = "P"%char
    /\ str2perm (letters shown) = Ok p.
Proof.
  intros Hs Hmap Hne.
  destruct (decoded_perm s Hs) as (p & Hp & H16 & Hhi & Hp0 & _).
  destruct (setperm_unfold m addr s) as (p1 & Hp1 & E1).
  rewrite Hp in Hp1. injection Hp1 as <-. rewrite E1. cbv zeta. rewrite H16.
  clear E1 H16 Hs.
  set (va := wrap32 addr) in *.
  assert (HS : Z.testbit (PDE m va) 7 = false /\ Z.testbit (PDE m va) 0 = true
               /\ Z.testbit (PTE m va) 0 = true).
  { inversion Hmap as [? ? | H7 H0 HL]; auto. }
  destruct HS as (HS & HP & HL). rewrite HS, HP, HL.
  assert (Hpte : 0 <= PTE m va < 2 ^ 32) by apply wrap32_range.
  set (new := Z.lor (Z.lor (Z.land (PTE m va) 0xFFFFF000) (Z.land p 0xFFF)) PTE_P).
  assert (Hnew : forall k, 0 <= k ->
            Z.testbit new k
            = if k <? 12 then Z.testbit p k || (k =? 0) else Z.testbit (PTE m va) k)
    by (apply leaf_entry_bits; assumption).
  assert (Hw : wrap32 new = new).
  { apply wrap32_by_bits. intros k Hk. rewrite Hnew by lia.
    destruct (Z.ltb_spec k 12); [ lia | ]. apply (small_high 32); lia. }
  assert (Hperm : PERM new = Z.lor p PTE_P).
  { unfold PERM. apply Z.bits_inj'. intros k Hk.
    rewrite Z.land_spec, Z.lor_spec, Hnew, testbit_perm_mask, testbit_P by lia.
    destruct (Z.ltb_spec k 12).
    - now rewrite andb_true_r, (Z.eqb_sym 0 k).
    - rewrite Hhi by lia. destruct (Z.eqb_spec 0 k); [ lia | ]. now rewrite andb_false_r. }
  assert (Hrange : 0 <= Z.lor p PTE_P < 0x200).
  { assert (0 <= p) by (destruct (str2perm_total (strncpy 9 s ++ [NUL]))
                          as (q & Hq & ? & _); rewrite Hp in Hq; injection Hq as <-; lia).
    split; [ apply Z.lor_nonneg; split; [ assumption | discriminate ] | ].
    apply (below_pow2 9); [ lia | apply Z.lor_nonneg; split; [ assumption | discriminate ] | ].
    intros k Hk. rewrite Z.lor_spec, testbit_P, Hhi by lia.
    destruct (Z.eqb_spec 0 k); [ lia | reflexivity ]. }
  destruct (PTE_write_ne m new va Hne) as [Ee Ev].
  exists (write32 m (PTE_PTR m va) new). eexists. exists p.
  exists (perm2str_loop 9 (Z.lor p PTE_P)).
  split; [ reflexivity | ]. split; [ exact Hp | ]. split; [ | split ].
  - rewrite showmap_body_leaf.
    + rewrite PDE_write_ne, Ev, Hw, Hperm by assumption.
      unfold print_mapped, perm2str.
      destruct (Z.leb_spec 0x200 (Z.lor p PTE_P)); [ lia | reflexivity ].
    + rewrite PDE_write_ne by assumption. exact HP.
    + rewrite PDE_write_ne by assumption. exact HS.
    + rewrite Ev, Hw, Hnew by lia. bits_known. reflexivity.
  - rewrite perm2str_loop_nth by lia. change (Z.of_nat (9 - 1 - 8)) with 0.
    rewrite Z.lor_spec, testbit_P by lia. cbn. now rewrite orb_true_r.
  - rewrite str2perm_Ok, str2perm_loop_letters by lia. f_equal.
    apply Z.bits_inj'. intros k Hk.
    repeat first [ rewrite Z.land_spec | rewrite Z.lor_spec ].
    rewrite Z.bits_0, testbit_not_P, testbit_P by lia.
    rewrite Z.testbit_ones_nonneg by lia. cbn [orb Z.of_nat Pos.of_succ_nat Pos.succ].
    destruct (Z.ltb_spec k 9).
    + destruct (Z.eqb_spec 0 k) as [<- | ]; [ now rewrite Hp0 | split_bits ].
    + rewrite Hhi by lia. split_bits.
Qed.


End SetpermShowmap.
Import SetpermShowmap.

(** X10. setperm followed by showmap: after setperm with a string of
    mnemonic letters on a present small page (whose leaf entry is not the
    directory entry itself), `showmap addr 1` for that page returns 0 and
    prints the debug line with the new attribute bits and one Mapped line;
    the line shows the Present letter, and decoding the letters it shows
    gives exactly the set that was decoded from the string. *)
Theorem setperm_then_showmap (m : Machine) (addr : Z) (s : list ascii) :
  0 <= addr -> addr + PGSIZE < 2 ^ 32 -> addr mod PGSIZE = 0 ->
  forallb is_mnemonic s = true ->
  present_mapping m addr false (PTE_PTR m addr) ->
  PTE_PTR m addr <> PDE_PTR m addr ->
  exists m1 out p shown,
    mon_setperm m addr s = Ok (0, m1, out)
    /\ str2perm (strncpy 9 s ++ [NUL]) = Ok p
    /\ (forall fuel, (2 <= fuel)%nat ->
          mon_showmap fuel m1 addr 1
          = ([PtePerm (Z.lor p PTE_P);
              Mapped false addr (PTE_ADDR (PDE m addr)) shown], Some 0))
    /\ nth 8 shown NUL = "P"%char
    /\ str2perm (letters shown) = Ok p.
Proof.
  intros Hlo Hhi Halign Hs Hmap Hne.
  assert (Hw : wrap32 addr = addr) by (apply wrap32_small; unfold PGSIZE in Hhi; lia).
  destruct (setperm_showmap_body m addr s Hs) as (m1 & out & p & shown & Hrun & Hp & Hbody & HP & Hdec);
    rewrite ?Hw; try assumption.
  rewrite Hw in Hbody. exists m1, out, p, shown.
  split; [ exact Hrun | ]. split; [ exact Hp | ]. split; [ | split; assumption ].
  intros fuel Hfuel. destruct fuel as [|[|fuel]]; try lia.
  unfold mon_showmap. cbv zeta. rewrite Hw.
  change (wrap32 1) with 1. unfold PGSIZE in *.
  rewrite (wrap32_small (addr + 1)) by lia.
  unfold ROUNDDOWN. rewrite Halign, Z.sub_0_r.
  cbn [showmap_loop]. destruct (Z.leb_spec addr (addr + 1)); [ | lia ].
  rewrite Hbody. rewrite (wrap32_small (addr + 4096)) by lia.
  destruct (Z.leb_spec (addr + 4096) (addr + 1)); [ lia | ]. reflexivity.
Qed.

Lemma setperm_then_showmap_witness :
  exists m1 out p shown,
    mon_setperm Examples.demo 0x1000 (list_ascii_of_string "UA") = Ok (0, m1, out)
    /\ str2perm (strncpy 9 (list_ascii_of_string "UA") ++ [NUL]) = Ok p
    /\ (forall fuel, (2 <= fuel)%nat ->
          mon_showmap fuel m1 0x1000 1
          = ([PtePerm (Z.lor p PTE_P);
              Mapped false 0x1000 (PTE_ADDR (PDE Examples.demo 0x1000)) shown], Some 0))
    /\ nth 8 shown NUL = "P"%char
    /\ str2perm (letters shown) = Ok p.
Proof.
  apply (setperm_then_showmap Examples.demo 0x1000 (list_ascii_of_string "UA")).
  - discriminate.
  - reflexivity.
  - reflexivity.
  - reflexivity.
  - apply present_leaf; reflexivity.
  - discriminate.
Defined.

(** ** showmap, beyond the count of a range without gaps *)

Module ShowmapMore.

(** A run of [n] steps of size [step] from [v] that ends at a directory
    entry which is not present: [n] Mapped lines, then one Unmapped line,
    and the return code 1. *)
Lemma showmap_loop_gap (m : Machine) (step vend : Z) (n : nat) :
  forall v fuel,
    0 < step -> 0 <= v -> vend + step < 2 ^ 32 ->
    (forall j, 0 <= j < Z.of_nat n -> mapped_with m step (v + j * step)) ->
    v + Z.of_nat n * step <= vend ->
    Z.testbit (PDE m (v + Z.of_nat n * step)) 0 = false ->
    (n < fuel)%nat ->
    exists pre,
      showmap_loop fuel m v vend = (pre ++ [Unmapped (v + Z.of_nat n * step)], Some 1)
      /\ count_Mapped pre = Z.of_nat n /\ no_Unmapped pre = true.
Proof.
  induction n as [|n IH]; intros v fuel Hstep Hv Htop Hmap Hle Hgap Hfuel;
    (destruct fuel as [|fuel]; [ lia | ]).
  - replace (v + Z.of_nat 0 * step) with v in * by lia.
    rewrite showmap_loop_absent_directory by assumption.
    exists []. repeat split.
  - cbn [showmap_loop]. destruct (Z.leb_spec v vend) as [_|Hgt]; [ | lia ].
    pose proof (Hmap 0 ltac:(lia)) as H0.
    replace (v + 0 * step) with v in H0 by lia.
    destruct (showmap_body_mapped m step v H0) as (out1 & -> & Hc1 & Hn1).
    rewrite wrap32_small by lia.
    replace (v + Z.of_nat (S n) * step) with (v + step + Z.of_nat n * step) in * by lia.
    destruct (IH (v + step) fuel) as (rest & -> & Hc & Hnu); try assumption; try lia.
    + intros j Hj. replace (v + step + j * step) with (v + (j + 1) * step) by lia.
      apply Hmap. lia.
    + exists (out1 ++ rest). split; [ now rewrite app_assoc | ].
      split; [ rewrite count_Mapped_app; lia | now apply no_Unmapped_app ].
Qed.

Lemma PGOFF_mod (x : Z) : PGOFF x = x mod 4096.
Proof. unfold PGOFF. change 0xFFF with (Z.ones 12). now rewrite Z.land_ones by lia. Qed.

Lemma PGOFF_ROUNDDOWN (x : Z) : PGOFF (ROUNDDOWN x PGSIZE) = 0.
Proof.
  rewrite PGOFF_mod. unfold ROUNDDOWN, PGSIZE.
  pose proof (Z.div_mod x 4096 ltac:(lia)) as H.
  replace (x - x mod 4096) with (x / 4096 * 4096) by lia. apply Z.mod_mul. lia.
Qed.

(** Advancing a page-aligned address by a multiple of the page size, in
    32 bits, keeps it page-aligned. *)
Lemma PGOFF_advance (v c : Z) :
  PGOFF v = 0 -> c mod 4096 = 0 -> PGOFF (wrap32 (v + c)) = 0.
Proof.
  rewrite !PGOFF_mod. intros Hv Hc. unfold wrap32.
  pose proof (Z.div_mod v 4096 ltac:(lia)) as H1.
  pose proof (Z.div_mod c 4096 ltac:(lia)) as H2.
  replace (v + c) with (4096 * (v / 4096 + c / 4096)) by lia.
  change (2 ^ 32) with (4096 * 2 ^ 20).
  rewrite Z.mul_mod_distr_l by lia. rewrite Z.mul_comm. apply Z.mod_mul. lia.
Qed.

Lemma PGOFF_PTE_ADDR (x : Z) : PGOFF (PTE_ADDR x) = 0.
Proof.
  unfold PGOFF, PTE_ADDR. apply Z.bits_inj'. intros k Hk.
  rewrite !Z.land_spec, testbit_addr_mask, testbit_perm_mask, Z.bits_0 by lia.
  split_bits.
Qed.

Lemma PGOFF_superpage_address (x v : Z) :
  PGOFF (Z.lor (PTE_ADDR x) (Z.shiftl (PTX v) PTXSHIFT)) = 0.
Proof.
  unfold PGOFF at 1. rewrite Z.land_lor_distr_l. fold (PGOFF (PTE_ADDR x)).
  rewrite PGOFF_PTE_ADDR, Z.lor_0_l.
  apply Z.bits_inj'. intros k Hk.
  rewrite Z.land_spec, testbit_perm_mask, Z.bits_0 by lia.
  destruct (Z.ltb_spec k 12); [ | apply andb_false_r ].
  rewrite Z.shiftl_spec_low by (unfold PTXSHIFT; lia). reflexivity.
Qed.

(** The letters at the two places that the tests of showmap decide. *)
Lemma print_mapped_letters (pse : bool) (va pa entry : Z) :
  Forall (fun o =>
    match o with
    | Mapped _ _ _ perm =>
        nth 8 perm NUL = (if Z.testbit entry 0 then "P" else "-")%char
        /\ nth 1 perm NUL = (if Z.testbit entry 7 then "S" else "-")%char
    | _ => True
    end) (print_mapped pse va pa (PERM entry)).
Proof.
  assert (Hr : 0 <= PERM entry < 2 ^ 32).
  { unfold PERM. change 0xFFF with (Z.ones 12). rewrite Z.land_ones by lia.
    pose proof (Z.mod_pos_bound entry (2 ^ 12) ltac:(lia)). lia. }
  assert (Hb : forall k, 0 <= k < 12 -> Z.testbit (PERM entry) k = Z.testbit entry k).
  { intros k Hk. unfold PERM. rewrite Z.land_spec, testbit_perm_mask by lia.
    destruct (Z.ltb_spec k 12); [ apply andb_true_r | lia ]. }
  unfold print_mapped.
  pose proof (perm2str_chars (PERM entry) Hr) as Hc.
  destruct (perm2str (PERM entry)) as [w str]. cbn [snd] in Hc. subst str.
  apply Forall_app. split; [ destruct w; repeat constructor | ].
  repeat constructor.
  - rewrite perm2str_loop_nth by lia.
    change (Z.of_nat (9 - 1 - 8)) with 0. rewrite Hb by lia.
    destruct (Z.testbit entry 0); reflexivity.
  - rewrite perm2str_loop_nth by lia.
    change (Z.of_nat (9 - 1 - 1)) with 7. rewrite Hb by lia.
    destruct (Z.testbit entry 7); reflexivity.
Qed.

(** Every line of the loop started at a page-aligned address is a
    [page_line]. *)
Lemma showmap_loop_page_lines (m : Machine) (vend : Z) (fuel : nat) :
  forall v, PGOFF v = 0 -> Forall page_line (fst (showmap_loop fuel m v vend)).
Proof.
  induction fuel as [|fuel IH]; intros v Hv; cbn [showmap_loop]; [ constructor | ].
  destruct (v <=? vend); [ | constructor ].
  unfold showmap_body. cbv zeta. rewrite tst_P.
  destruct (Z.testbit (PDE m v) 0) eqn:HP; [ | repeat constructor; exact Hv ].
  rewrite tst_PS. destruct (Z.testbit (PDE m v) 7) eqn:HS.
  - specialize (IH (wrap32 (v + LPGSIZE)) (PGOFF_advance v LPGSIZE Hv eq_refl)).
    destruct (showmap_loop fuel m (wrap32 (v + LPGSIZE)) vend) as [rest r].
    cbn [fst] in *. apply Forall_app. split; [ | exact IH ].
    pose proof (print_mapped_letters true v
                  (Z.lor (PTE_ADDR (PDE m v)) (Z.shiftl (PTX v) PTXSHIFT)) (PDE m v)) as Hl.
    rewrite HP, HS in Hl.
    assert (Hshape : Forall (fun o => match o with
                       | Mapped pse va pa _ =>
                           va = v /\ pa = Z.lor (PTE_ADDR (PDE m v)) (Z.shiftl (PTX v) PTXSHIFT)
                       | Warning => True
                       | _ => False end)
              (print_mapped true v
                 (Z.lor (PTE_ADDR (PDE m v)) (Z.shiftl (PTX v) PTXSHIFT)) (PERM (PDE m v)))).
    { unfold print_mapped. destruct (perm2str (PERM (PDE m v))) as [[] str];
        repeat constructor. }
    revert Hl Hshape. generalize (print_mapped true v
                 (Z.lor (PTE_ADDR (PDE m v)) (Z.shiftl (PTX v) PTXSHIFT)) (PERM (PDE m v))).
    intros l Hl Hshape. induction l as [|o l IHl]; [ constructor | ].
    inversion Hl; inversion Hshape; subst. constructor; [ | now apply IHl ].
    destruct o; try exact I; try contradiction.
    cbn [page_line]. destruct H5 as [-> ->]. destruct H1 as [H8 H1'].
    repeat split; try assumption; [ apply PGOFF_superpage_address | intros _; exact H1' ].
  - rewrite tst_P. destruct (Z.testbit (PTE m v) 0) eqn:HL.
    + specialize (IH (wrap32 (v + PGSIZE)) (PGOFF_advance v PGSIZE Hv eq_refl)).
      destruct (showmap_loop fuel m (wrap32 (v + PGSIZE)) vend) as [rest r].
      cbn [fst] in *. apply Forall_app. split; [ | exact IH ].
      constructor; [ exact I | ].
      pose proof (print_mapped_letters false v (PTE_ADDR (PDE m v)) (PTE m v)) as Hl.
      rewrite HL in Hl.
      assert (Hshape : Forall (fun o => match o with
                         | Mapped pse va pa _ =>
                             pse = false /\ va = v /\ pa = PTE_ADDR (PDE m v)
                         | Warning => True
                         | _ => False end)
                (print_mapped false v (PTE_ADDR (PDE m v)) (PERM (PTE m v)))).
      { unfold print_mapped. destruct (perm2str (PERM (PTE m v))) as [[] str];
          repeat constructor. }
      revert Hl Hshape.
      generalize (print_mapped false v (PTE_ADDR (PDE m v)) (PERM (PTE m v))).
      intros l Hl Hshape. induction l as [|o l IHl]; [ constructor | ].
      inversion Hl; inversion Hshape; subst. constructor; [ | now apply IHl ].
      destruct o; try exact I; try contradiction.
      cbn [page_line]. destruct H5 as (-> & -> & ->). destruct H1 as [H8 _].
      repeat split; try assumption; [ apply PGOFF_PTE_ADDR | discriminate ].
    + specialize (IH v Hv). destruct (showmap_loop fuel m v vend) as [rest r].
      exact IH.
Qed.

End ShowmapMore.
Import ShowmapMore.

(** X11. The exact number of lines of showmap over a range without gaps
    whose steps all have the size [step]: because the loop runs while
    vstart <= vend, it prints floor((length + start mod PGSIZE) / step) + 1
    Mapped lines; in particular one line for length 0, and one line more
    than the range has pages when it ends exactly on a step boundary. *)
Theorem showmap_count_inclusive (m : Machine) (start len step : Z) :
  0 <= start -> 0 <= len -> start + len + step < 2 ^ 32 ->
  (forall k, 0 <= k -> ROUNDDOWN start PGSIZE + k * step <= start + len ->
             mapped_with m step (ROUNDDOWN start PGSIZE + k * step)) ->
  exists fuel0, forall fuel, (fuel0 <= fuel)%nat ->
    exists out,
      mon_showmap fuel m start len = (out, Some 0)
      /\ count_Mapped out = (start mod PGSIZE + len) / step + 1
      /\ no_Unmapped out = true.
Proof.
  intros Hstart Hlen Htop Hmap.
  assert (Hoff : 0 <= start mod PGSIZE < PGSIZE) by (apply Z.mod_pos_bound; reflexivity).
  assert (Hoff' : start mod PGSIZE <= start) by (apply Z.mod_le; [ lia | reflexivity ]).
  assert (Hstep : 0 < step).
  { destruct (Hmap 0 ltac:(lia)) as [(-> & _) | (-> & _)];
      unfold ROUNDDOWN; try lia; reflexivity. }
  set (x := start mod PGSIZE + len) in *.
  assert (Hx : 0 <= x / step) by (apply Z.div_pos; lia).
  exists (S (Z.to_nat (x / step + 1))). intros fuel Hfuel.
  unfold mon_showmap. cbv zeta.
  rewrite (wrap32_small start), (wrap32_small len), (wrap32_small (start + len)) by lia.
  destruct (showmap_loop_uniform m step (start + len) (Z.to_nat (x / step + 1))
              (ROUNDDOWN start PGSIZE) fuel) as (out & Hrun & Hc & Hn);
    try assumption; try lia.
  - unfold ROUNDDOWN. lia.
  - unfold ROUNDDOWN.
    destruct (Z.leb_spec (start - start mod PGSIZE) (start + len)); [ | lia ].
    rewrite Z2Nat.id by lia. unfold x. do 2 f_equal. lia.
  - exists out. split; [ exact Hrun | ]. split; [ | exact Hn ].
    rewrite Hc, Z2Nat.id by lia. reflexivity.
Qed.

Lemma showmap_count_inclusive_witness :
  exists fuel0, forall fuel, (fuel0 <= fuel)%nat ->
    exists out,
      mon_showmap fuel Examples.demo 0x1000 0x1000 = (out, Some 0)
      /\ count_Mapped out = (0x1000 mod PGSIZE + 0x1000) / PGSIZE + 1
      /\ no_Unmapped out = true.
Proof.
  apply (showmap_count_inclusive Examples.demo 0x1000 0x1000 PGSIZE).
  - discriminate.
  - discriminate.
  - reflexivity.
  - intros k Hk Hle. right.
    change (ROUNDDOWN 0x1000 PGSIZE) with 0x1000 in *. change PGSIZE with 4096 in *.
    assert (Hcases : k = 0 \/ k = 1) by lia.
    destruct Hcases as [-> | ->]; repeat split; reflexivity.
Defined.

(** X12. showmap stops at the first directory entry that is not present:
    after [k] steps of one size over mapped pages, when the next step
    address still lies in the range and its directory entry is not
    present, showmap has printed [k] Mapped lines followed by exactly one
    Unmapped line for that address, and returns 1. *)
Theorem showmap_stops_at_gap (m : Machine) (start len step k : Z) :
  0 <= start -> 0 <= len -> start + len + step < 2 ^ 32 -> 0 < step -> 0 <= k ->
  (forall j, 0 <= j < k -> mapped_with m step (ROUNDDOWN start PGSIZE + j * step)) ->
  ROUNDDOWN start PGSIZE + k * step <= start + len ->
  Z.testbit (PDE m (ROUNDDOWN start PGSIZE + k * step)) 0 = false ->
  exists fuel0, forall fuel, (fuel0 <= fuel)%nat ->
    exists pre,
      mon_showmap fuel m start len
      = (pre ++ [Unmapped (ROUNDDOWN start PGSIZE + k * step)], Some 1)
      /\ count_Mapped pre = k /\ no_Unmapped pre = true.
Proof.
  intros Hstart Hlen Htop Hstep Hk Hmap Hle Hgap.
  assert (Hoff : 0 <= start mod PGSIZE < PGSIZE) by (apply Z.mod_pos_bound; reflexivity).
  assert (Hoff' : start mod PGSIZE <= start) by (apply Z.mod_le; [ lia | reflexivity ]).
  exists (S (Z.to_nat k)). intros fuel Hfuel.
  unfold mon_showmap. cbv zeta.
  rewrite (wrap32_small start), (wrap32_small len), (wrap32_small (start + len)) by lia.
  destruct (showmap_loop_gap m step (start + len) (Z.to_nat k)
              (ROUNDDOWN start PGSIZE) fuel) as (pre & Hrun & Hc & Hn);
    rewrite ?Z2Nat.id by lia; try assumption; try lia.
  - unfold ROUNDDOWN. lia.
  - rewrite Z2Nat.id in Hrun, Hc by lia. exists pre. repeat split; assumption.
Qed.

Lemma showmap_stops_at_gap_witness :
  exists fuel0, forall fuel, (fuel0 <= fuel)%nat ->
    exists pre,
      mon_showmap fuel Examples.demo 0x400000 0x400000
      = (pre ++ [Unmapped (ROUNDDOWN 0x400000 PGSIZE + 1 * LPGSIZE)], Some 1)
      /\ count_Mapped pre = 1 /\ no_Unmapped pre = true.
Proof.
  apply (showmap_stops_at_gap Examples.demo 0x400000 0x400000 LPGSIZE 1).
  - discriminate.
  - discriminate.
  - reflexivity.
  - reflexivity.
  - discriminate.
  - intros j Hj. left. replace j with 0 by lia. repeat split; reflexivity.
  - discriminate.
  - reflexivity.
Defined.

(** X13. Every line showmap prints speaks of whole pages: the virtual and
    the physical address of a Mapped line and the address of an Unmapped
    line are page-aligned; every Mapped line shows the Present letter in
    its last place, and a line printed for a superpage shows the Superpage
    letter. This holds for every page directory, range and number of
    turns of the loop. *)
Theorem showmap_page_lines (fuel : nat) (m : Machine) (start len : Z) :
  Forall page_line (fst (mon_showmap fuel m start len)).
Proof.
  unfold mon_showmap. cbv zeta. apply showmap_loop_page_lines.
  apply PGOFF_ROUNDDOWN.
Qed.

(** ** dumpmem, where it does advance *)

Module DumpmemMore.

Lemma map_seqZ_ext {A} (f g : Z -> A) (a n : Z) :
  (forall b, a <= b < a + n -> f b = g b) -> map f (seqZ a n) = map g (seqZ a n).
Proof.
  intros H. apply map_ext_in. intros b Hin.
  apply list_elem_of_In, elem_of_seqZ in Hin. now apply H.
Qed.

(** The two indices of an address, by division. *)
Lemma PDX_div (b : Z) : PDX b = (b / 2 ^ 22) mod 2 ^ 10.
Proof.
  unfold PDX, PDXSHIFT. rewrite Z.shiftr_div_pow2 by lia.
  change 0x3FF with (Z.ones 10). now rewrite Z.land_ones by lia.
Qed.

Lemma PTX_div (b : Z) : PTX b = (b / 2 ^ 12) mod 2 ^ 10.
Proof.
  unfold PTX, PTXSHIFT. rewrite Z.shiftr_div_pow2 by lia.
  change 0x3FF with (Z.ones 10). now rewrite Z.land_ones by lia.
Qed.

Lemma same_page_indices (a b : Z) :
  0 <= a -> b / 2 ^ 12 = a / 2 ^ 12 -> PDX b = PDX a /\ PTX b = PTX a.
Proof.
  intros Ha H. rewrite !PDX_div, !PTX_div.
  change (2 ^ 22) with (2 ^ 12 * 2 ^ 10).
  rewrite <- !Z.div_div by lia. now rewrite H.
Qed.

Lemma lor_disjoint (x y : Z) : Z.land x y = 0 -> Z.lor x y = x + y.
Proof.
  intros H. rewrite <- Z.lxor_lor by exact H. symmetry. now apply Z.add_nocarry_lxor.
Qed.

(** The end of the page chunk, [PGADDR(PDX(a), PTX(a) + 1, 0)], is the
    start of the next page, unless the page is the last of its table. *)
Lemma page_chunk_end (a : Z) :
  0 <= a < 2 ^ 32 -> PTX a < 1023 ->
  PGADDR (PDX a) (PTX a + 1) 0 = (a / 2 ^ 12 + 1) * 2 ^ 12.
Proof.
  intros Ha Hlast. unfold PGADDR, PDXSHIFT, PTXSHIFT. rewrite Z.lor_0_r.
  assert (Hd : 0 <= PDX a < 2 ^ 10) by (rewrite PDX_div; apply Z.mod_pos_bound; lia).
  assert (Ht : 0 <= PTX a) by (rewrite PTX_div; apply Z.mod_pos_bound; lia).
  rewrite lor_disjoint.
  - rewrite !Z.shiftl_mul_pow2 by lia.
    assert (E : a / 2 ^ 12 = PDX a * 2 ^ 10 + PTX a).
    { rewrite PDX_div, PTX_div.
      assert (Hsmall : a / 2 ^ 22 < 2 ^ 10)
        by (apply Z.div_lt_upper_bound; lia).
      rewrite (Z.mod_small (a / 2 ^ 22)) by (split; [ apply Z.div_pos; lia | lia ]).
      change (2 ^ 22) with (2 ^ 12 * 2 ^ 10). rewrite <- Z.div_div by lia.
      pose proof (Z.div_mod (a / 2 ^ 12) (2 ^ 10) ltac:(lia)). lia. }
    rewrite E, wrap32_small by lia. lia.
  - apply Z.bits_inj'. intros k Hk.
    rewrite Z.land_spec, Z.bits_0.
    destruct (Z.ltb_spec k 22).
    + rewrite Z.shiftl_spec_low by lia. reflexivity.
    + rewrite (Z.shiftl_spec (PTX a + 1)) by lia.
      rewrite (small_high 10 (PTX a + 1) (k - 12)) by lia. apply andb_false_r.
Qed.

(** The end of the directory chunk, [PGADDR(PDX(a) + 1, 0, 0)], is the
    start of the next directory slot, below the last slot. *)
Lemma directory_chunk_end (a : Z) :
  0 <= a < 0xFFC00000 ->
  PGADDR (PDX a + 1) 0 0 = (a / 2 ^ 22 + 1) * 2 ^ 22.
Proof.
  intros Ha. unfold PGADDR, PDXSHIFT, PTXSHIFT.
  rewrite Z.shiftl_0_l, !Z.lor_0_r, Z.shiftl_mul_pow2 by lia.
  assert (Hsmall : a / 2 ^ 22 < 1023) by (apply Z.div_lt_upper_bound; lia).
  assert (0 <= a / 2 ^ 22) by (apply Z.div_pos; lia).
  rewrite PDX_div, Z.mod_small by lia. apply wrap32_small. lia.
Qed.

Lemma chunk_same_page (a b : Z) :
  0 <= a -> a <= b < (a / 2 ^ 12 + 1) * 2 ^ 12 -> b / 2 ^ 12 = a / 2 ^ 12.
Proof.
  intros Ha Hb. pose proof (Z.div_mod a (2 ^ 12) ltac:(lia)).
  pose proof (Z.mod_pos_bound a (2 ^ 12) ltac:(lia)).
  symmetry. apply (Z.div_unique b (2 ^ 12) (a / 2 ^ 12) (b - 2 ^ 12 * (a / 2 ^ 12))); lia.
Qed.

Lemma chunk_same_slot (a b : Z) :
  0 <= a -> a <= b < (a / 2 ^ 22 + 1) * 2 ^ 22 -> PDX b = PDX a.
Proof.
  intros Ha Hb. rewrite !PDX_div. f_equal.
  pose proof (Z.div_mod a (2 ^ 22) ltac:(lia)).
  pose proof (Z.mod_pos_bound a (2 ^ 22) ltac:(lia)).
  symmetry. apply (Z.div_unique b (2 ^ 22) (a / 2 ^ 22) (b - 2 ^ 22 * (a / 2 ^ 22))); lia.
Qed.

Lemma MIN_spec (a b : Z) : MIN a b = Z.min a b.
Proof. unfold MIN. destruct (Z.ltb_spec a b); lia. Qed.

Lemma PDE_same_slot (m : Machine) (a b : Z) : PDX b = PDX a -> PDE m b = PDE m a.
Proof. intros H. unfold PDE, PDE_PTR. now rewrite H. Qed.

Lemma PTE_same_page (m : Machine) (a b : Z) :
  PDX b = PDX a -> PTX b = PTX a -> PTE_PTR m b = PTE_PTR m a /\ PTE m b = PTE m a.
Proof.
  intros Hd Ht.
  assert (E : PTE_PTR m b = PTE_PTR m a)
    by (unfold PTE_PTR; now rewrite (PDE_same_slot m a b Hd), Ht).
  split; [ exact E | ]. unfold PTE. now rewrite E.
Qed.

(** One turn of the loop from such an address: it moves on, by at least
    one byte and not beyond [mend], and prints the line of each byte it
    passes. *)
Lemma dumpmem_body_chunk (m : Machine) (a mend : Z) :
  0 <= a < mend -> mend <= 0xFFC00000 -> advances m a ->
  exists next,
    a < next <= mend
    /\ dumpmem_body m a mend = (next, map (translate_byte m) (seqZ a (next - a))).
Proof.
  intros Ha Htop [Hlast Hps].
  assert (Ha32 : 0 <= a < 2 ^ 32) by lia.
  pose proof (page_chunk_end a Ha32 Hlast) as Epage.
  pose proof (directory_chunk_end a ltac:(lia)) as Edir.
  assert (Hpage : a < (a / 2 ^ 12 + 1) * 2 ^ 12).
  { pose proof (Z.div_mod a (2 ^ 12) ltac:(lia)).
    pose proof (Z.mod_pos_bound a (2 ^ 12) ltac:(lia)). lia. }
  assert (Hslot : a < (a / 2 ^ 22 + 1) * 2 ^ 22).
  { pose proof (Z.div_mod a (2 ^ 22) ltac:(lia)).
    pose proof (Z.mod_pos_bound a (2 ^ 22) ltac:(lia)). lia. }
  assert (Hin_page : forall b, a <= b < MIN ((a / 2 ^ 12 + 1) * 2 ^ 12) mend ->
            PDX b = PDX a /\ PTX b = PTX a).
  { intros b Hb. rewrite MIN_spec in Hb.
    apply same_page_indices; [ lia | ]. apply chunk_same_page; lia. }
  assert (Hin_slot : forall b, a <= b < MIN ((a / 2 ^ 22 + 1) * 2 ^ 22) mend ->
            PDX b = PDX a).
  { intros b Hb. rewrite MIN_spec in Hb. apply chunk_same_slot; lia. }
  assert (Hmin_page : a < MIN ((a / 2 ^ 12 + 1) * 2 ^ 12) mend <= mend)
    by (rewrite MIN_spec; lia).
  assert (Hmin_slot : a < MIN ((a / 2 ^ 22 + 1) * 2 ^ 22) mend <= mend)
    by (rewrite MIN_spec; lia).
  unfold dumpmem_body, for_bytes, pgdir_walk. rewrite tst_PS, !tst_P, Epage, Edir.
  destruct (Z.testbit (PDE m a) 7) eqn:HS.
  - destruct (Z.testbit (PDE m a) 0) eqn:HP; [ | exfalso; apply Hps; now split ].
    exists (MIN ((a / 2 ^ 12 + 1) * 2 ^ 12) mend). split; [ exact Hmin_page | ].
    rewrite Z.max_r by lia. f_equal. apply map_seqZ_ext. intros b Hb.
    destruct (Hin_page b ltac:(lia)) as [Hd Ht].
    unfold translate_byte. now rewrite (PDE_same_slot m a b Hd), HS, HP.
  - destruct (Z.testbit (PDE m a) 0) eqn:HP.
    + fold (PTE m a). rewrite tst_P.
      exists (MIN ((a / 2 ^ 12 + 1) * 2 ^ 12) mend). split; [ exact Hmin_page | ].
      destruct (Z.testbit (PTE m a) 0) eqn:HL; cbn [negb];
        rewrite Z.max_r by lia; f_equal; apply map_seqZ_ext; intros b Hb;
        destruct (Hin_page b ltac:(lia)) as [Hd Ht];
        destruct (PTE_same_page m a b Hd Ht) as [_ Hv];
        unfold translate_byte;
        now rewrite (PDE_same_slot m a b Hd), HS, HP, Hv, HL.
    + exists (MIN ((a / 2 ^ 22 + 1) * 2 ^ 22) mend). split; [ exact Hmin_slot | ].
      rewrite Z.max_r by lia. f_equal. apply map_seqZ_ext. intros b Hb.
      unfold translate_byte.
      now rewrite (PDE_same_slot m a b (Hin_slot b ltac:(lia))), HS, HP.
Qed.

(** The loop over a range of such addresses prints the line of every
    byte of the range, in order, and returns. *)
Lemma dumpmem_loop_bytes (m : Machine) (mend : Z) (fuel : nat) :
  forall a,
    0 <= a <= mend -> mend <= 0xFFC00000 ->
    (forall b, a <= b < mend -> advances m b) ->
    (Z.to_nat (mend - a) < fuel)%nat ->
    dumpmem_loop fuel m a mend = (map (translate_byte m) (seqZ a (mend - a)), Some 0).
Proof.
  induction fuel as [|fuel IH]; intros a Ha Htop Hadv Hfuel; [ lia | ].
  cbn [dumpmem_loop]. destruct (Z.ltb_spec a mend) as [Hlt | Hge].
  - destruct (dumpmem_body_chunk m a mend) as (next & Hnext & ->);
      [ lia | assumption | apply Hadv; lia | ].
    rewrite IH; [ | lia | assumption | intros b Hb; apply Hadv; lia | lia ].
    f_equal. rewrite <- map_app. f_equal.
    replace (mend - a) with ((next - a) + (mend - next)) by lia.
    rewrite seqZ_app by lia. do 2 f_equal. lia.
  - replace (mend - a) with 0 by lia. reflexivity.
Qed.

End DumpmemMore.
Import DumpmemMore.

(** X14. dumpmem in virtual mode over a range below the last directory
    slot in which no address lies in the last page of a page table and no
    directory entry carries the Superpage bit without the Present bit: it
    returns 0 and prints exactly one line per byte address of
    [start, start + length), in ascending order, each line being the one
    the paging structures give for that byte (the byte with its physical
    address under a present superpage or leaf, "No-mapping" elsewhere);
    gaps are passed, not stopped at. *)
Theorem dumpmem_every_byte (m : Machine) (start len : Z) :
  0 <= start -> 0 <= len -> start + len <= 0xFFC00000 ->
  (forall b, start <= b < start + len -> advances m b) ->
  exists fuel0, forall fuel, (fuel0 <= fuel)%nat ->
    mon_dumpmem fuel m false start len
    = (map (translate_byte m) (seqZ start len), Some 0).
Proof.
  intros Hstart Hlen Htop Hadv. exists (S (Z.to_nat len)). intros fuel Hfuel.
  unfold mon_dumpmem. cbv zeta.
  rewrite (wrap32_small start), (wrap32_small len), (wrap32_small (start + len)) by lia.
  rewrite dumpmem_loop_bytes; try assumption; try lia.
  now replace (start + len - start) with len by lia.
Qed.

Lemma dumpmem_every_byte_witness :
  exists fuel0, forall fuel, (fuel0 <= fuel)%nat ->
    mon_dumpmem fuel Examples.demo false 0x2FFE 4
    = (map (translate_byte Examples.demo) (seqZ 0x2FFE 4), Some 0).
Proof.
  apply (dumpmem_every_byte Examples.demo 0x2FFE 4).
  - discriminate.
  - discriminate.
  - discriminate.
  - intros b Hb.
    assert (Hcases : b = 0x2FFE \/ b = 0x2FFF \/ b = 0x3000 \/ b = 0x3001) by lia.
    destruct Hcases as [-> | [-> | [-> | ->]]];
      (split; [ reflexivity | intros [H _]; discriminate H ]).
Defined.

(** X15. dumpmem in physical mode always returns 0, whatever the fuel: it
    prints one line per physical address from start up to the end of the
    range, but never from 0x10000000 (the top of the window mapped at
    KERNBASE) on; when the range ends above that top the truncation
    notice comes first. The byte shown for an address is the one at that
    address plus KERNBASE, without wrap-around. *)
Theorem dumpmem_physical (fuel : nat) (m : Machine) (start len : Z) :
  mon_dumpmem fuel m true start len
  = ((if 0x10000000 <? wrap32 (wrap32 start + wrap32 len) then [Truncated] else [])
     ++ map (fun a => MappedByte None a (vbyte m (a + KERNBASE)))
            (seqZ (wrap32 start)
                  (Z.min (wrap32 (wrap32 start + wrap32 len)) 0x10000000 - wrap32 start)),
     Some 0).
Proof.
  unfold mon_dumpmem, for_bytes. cbv zeta.
  change (wrap32 (Z.lnot KERNBASE + 1)) with 0x10000000.
  pose proof (wrap32_range start) as Hs.
  set (mstart := wrap32 start) in *.
  set (mend := wrap32 (mstart + wrap32 len)).
  assert (Hk : forall stop, stop <= 0x10000000 ->
            map (fun a => MappedByte None a (vbyte m (KADDR a))) (seqZ mstart (stop - mstart))
            = map (fun a => MappedByte None a (vbyte m (a + KERNBASE)))
                  (seqZ mstart (stop - mstart))).
  { intros stop Hstop. apply map_seqZ_ext. intros a Ha.
    unfold KADDR. rewrite wrap32_small; [ reflexivity | ]. unfold KERNBASE. lia. }
  destruct (Z.ltb_spec 0x10000000 mend).
  - rewrite Z.min_r by lia. now rewrite Hk by lia.
  - rewrite Z.min_l by lia. now rewrite Hk by lia.
Qed.

(** ** Argument handling of dumpmem *)

Module DumpmemArgsFacts.

Lemma find_option_at (i : nat) (a : string) (rest : list string) :
  is_option a = true ->
  find_option i (a :: rest) = Some (i, is_physical_option a).
Proof.
  unfold is_option. intros H. cbn [find_option].
  destruct (is_physical_option a); [ reflexivity | ].
  cbn [orb] in H. now rewrite H.
Qed.

Lemma find_option_skip (i : nat) (a : string) (rest : list string) :
  is_option a = false ->
  find_option i (a :: rest) = find_option (S i) rest.
Proof.
  unfold is_option. intros H. apply orb_false_elim in H. destruct H as [H1 H2].
  cbn [find_option]. now rewrite H1, H2.
Qed.

End DumpmemArgsFacts.
Import DumpmemArgsFacts.

(** X16. With four arguments the option of dumpmem may stand at any of
    the three places: `dumpmem opt a b`, `dumpmem a opt b` and
    `dumpmem a b opt` all hand the strings a and b to strtol as start and
    length, in physical mode exactly when the option is -p or --physical
    (a and b being no options themselves). *)
Theorem dumpmem_option_anywhere (cmd opt a b : string) :
  is_option opt = true -> is_option a = false -> is_option b = false ->
  dumpmem_args [cmd; opt; a; b] = Some (is_physical_option opt, a, b)
  /\ dumpmem_args [cmd; a; opt; b] = Some (is_physical_option opt, a, b)
  /\ dumpmem_args [cmd; a; b; opt] = Some (is_physical_option opt, a, b).
Proof.
  intros Ho Ha Hb. unfold dumpmem_args. cbn [length Nat.eqb drop].
  repeat split.
  - now rewrite find_option_at by exact Ho.
  - rewrite find_option_skip, find_option_at by assumption. reflexivity.
  - rewrite !find_option_skip, find_option_at by assumption. reflexivity.
Qed.

Lemma dumpmem_option_anywhere_witness :
  dumpmem_args ["dumpmem"; "--physical"; "0x100000"; "16"]%string
  = Some (is_physical_option "--physical", "0x100000", "16")%string
  /\ dumpmem_args ["dumpmem"; "0x100000"; "--physical"; "16"]%string
     = Some (is_physical_option "--physical", "0x100000", "16")%string
  /\ dumpmem_args ["dumpmem"; "0x100000"; "16"; "--physical"]%string
     = Some (is_physical_option "--physical", "0x100000", "16")%string.
Proof. apply dumpmem_option_anywhere; reflexivity. Defined.

(** X17. dumpmem prints its usage text and returns 1 exactly when it is
    called with neither three nor four arguments, or with four arguments
    none of which (after the command name) is an option. With three
    arguments nothing is taken as an option: the mode is virtual and
    argv[1], argv[2] go to strtol as they are. *)
Theorem dumpmem_args_usage (argv : list string) :
  (dumpmem_args argv = None <->
   (length argv <> 3%nat /\ length argv <> 4%nat)
   \/ (length argv = 4%nat
       /\ forallb (fun a => negb (is_option a)) (drop 1 argv) = true))
  /\ (forall cmd a b, argv = [cmd; a; b] -> dumpmem_args argv = Some (false, a, b)).
Proof.
  split; [ | intros cmd a b ->; reflexivity ].
  destruct argv as [|c [|x [|y [|z [|w rest]]]]].
  1-3: (split; [ intros _; left; cbn; lia | reflexivity ]).
  - split; [ discriminate | ]. cbn [length]. intros [[? _] | [? _]]; lia.
  - unfold dumpmem_args. cbn [length Nat.eqb drop forallb].
    destruct (is_option x) eqn:Hx.
    { rewrite find_option_at by exact Hx. cbn.
      split; [ discriminate | intros [[_ ?] | [_ ?]]; [ lia | discriminate ] ]. }
    rewrite find_option_skip by exact Hx.
    destruct (is_option y) eqn:Hy.
    { rewrite find_option_at by exact Hy. cbn.
      split; [ discriminate | intros [[_ ?] | [_ ?]]; [ lia | discriminate ] ]. }
    rewrite find_option_skip by exact Hy.
    destruct (is_option z) eqn:Hz.
    { rewrite find_option_at by exact Hz. cbn.
      split; [ discriminate | intros [[_ ?] | [_ ?]]; [ lia | discriminate ] ]. }
    rewrite find_option_skip by exact Hz. cbn.
    split; [ intros _; right; split; reflexivity | reflexivity ].
  - split; [ intros _; left; cbn [length]; lia | ].
    intros _. unfold dumpmem_args. cbn [length Nat.eqb negb]. reflexivity.
Qed.

(** ** StackUnwinder, beyond well-formed chains *)

Module BacktraceMore.

Section Unwinding.

Variable debuginfo_eip : Z -> Eipdebuginfo.

(** Whatever the loop returns was read off a chain that ends at zero. *)
Lemma backtrace_loop_sound (m : Machine) (fuel : nat) :
  forall fp frames,
    backtrace_loop debuginfo_eip fuel m fp = Some frames ->
    exists chain,
      fp_chain m fp chain /\ frames = map (backtrace_frame debuginfo_eip m) chain.
Proof.
  induction fuel as [|fuel IH]; intros fp frames H; [ discriminate H | ].
  cbn [backtrace_loop] in H. destruct (Z.eqb_spec fp 0) as [-> | Hnz].
  - injection H as <-. exists []. split; [ constructor | reflexivity ].
  - destruct (backtrace_loop debuginfo_eip fuel m (read32 m fp)) as [rest|] eqn:E;
      [ | discriminate H ].
    injection H as <-. destruct (IH _ _ E) as (chain & Hchain & ->).
    exists (fp :: chain). split; [ now constructor | reflexivity ].
Qed.

(** On a cycle of non-zero frame pointers the loop runs out of any fuel. *)
Lemma backtrace_loop_cycle (m : Machine) (fp : Z) (n : nat) :
  Nat.iter (S n) (read32 m) fp = fp ->
  (forall i, (i <= n)%nat -> Nat.iter i (read32 m) fp <> 0) ->
  forall fuel i, (i <= n)%nat ->
    backtrace_loop debuginfo_eip fuel m (Nat.iter i (read32 m) fp) = None.
Proof.
  intros Hcyc Hnz. induction fuel as [|fuel IH]; intros i Hi; [ reflexivity | ].
  cbn [backtrace_loop].
  destruct (Z.eqb_spec (Nat.iter i (read32 m) fp) 0) as [E | _];
    [ exfalso; now apply (Hnz i) | ].
  change (read32 m (Nat.iter i (read32 m) fp)) with (Nat.iter (S i) (read32 m) fp).
  destruct (Nat.eq_dec i n) as [-> | Hne].
  - rewrite Hcyc. change fp with (Nat.iter 0 (read32 m) fp) at 1.
    rewrite IH by lia. reflexivity.
  - rewrite IH by lia. reflexivity.
Qed.

End Unwinding.

End BacktraceMore.
Import BacktraceMore.

(** X18. backtrace returns only on a chain that ends at zero: whenever it
    returns, the return code is 0 and the frame pointers it printed, in
    the order printed, are a chain fp0 -> fp1 -> ... -> 0 starting at the
    initial frame pointer; each printed frame is the one read at its frame
    pointer. *)
Theorem backtrace_returns_on_chain (debuginfo_eip : Z -> Eipdebuginfo)
    (fuel : nat) (m : Machine) (fp0 r : Z) (frames : list (StackFrame * SymbolLine)) :
  mon_backtrace debuginfo_eip fuel m fp0 = Some (frames, r) ->
  r = 0
  /\ fp_chain m fp0 (map (fun fr => sf_ebp (fst fr)) frames)
  /\ frames = map (backtrace_frame debuginfo_eip m)
                  (map (fun fr => sf_ebp (fst fr)) frames).
Proof.
  unfold mon_backtrace. intros H.
  destruct (backtrace_loop debuginfo_eip fuel m fp0) as [fs|] eqn:E; [ | discriminate H ].
  injection H as <- <-. split; [ reflexivity | ].
  destruct (backtrace_loop_sound debuginfo_eip m fuel fp0 fs E) as (chain & Hchain & ->).
  assert (Hebp : map (fun fr => sf_ebp (fst fr)) (map (backtrace_frame debuginfo_eip m) chain)
                 = chain).
  { clear. induction chain as [|fp rest IH]; [ reflexivity | ].
    cbn [map]. now rewrite IH. }
  rewrite Hebp. split; [ exact Hchain | reflexivity ].
Qed.

Lemma backtrace_returns_on_chain_witness :
  0 = 0
  /\ fp_chain Examples.stack 0xF010FF00
       (map (fun fr => sf_ebp (fst fr))
            (map (backtrace_frame Examples.no_symbols Examples.stack)
                 [0xF010FF00; 0xF010FF40]))
  /\ map (backtrace_frame Examples.no_symbols Examples.stack) [0xF010FF00; 0xF010FF40]
     = map (backtrace_frame Examples.no_symbols Examples.stack)
           (map (fun fr => sf_ebp (fst fr))
                (map (backtrace_frame Examples.no_symbols Examples.stack)
                     [0xF010FF00; 0xF010FF40])).
Proof.
  apply (backtrace_returns_on_chain Examples.no_symbols 3 Examples.stack 0xF010FF00 0).
  reflexivity.
Defined.

(** X19. On a corrupt stack whose saved frame pointers form a cycle (the
    chain from fp comes back to fp after n + 1 steps without meeting
    zero) backtrace never returns, whatever the number of turns. *)
Theorem backtrace_cycle_never_returns (debuginfo_eip : Z -> Eipdebuginfo)
    (m : Machine) (fp : Z) (n : nat) :
  Nat.iter (S n) (read32 m) fp = fp ->
  (forall i, (i <= n)%nat -> Nat.iter i (read32 m) fp <> 0) ->
  forall fuel, mon_backtrace debuginfo_eip fuel m fp = None.
Proof.
  intros Hcyc Hnz fuel. unfold mon_backtrace.
  change fp with (Nat.iter 0 (read32 m) fp) at 1.
  now rewrite (backtrace_loop_cycle debuginfo_eip m fp n Hcyc Hnz fuel 0%nat) by lia.
Qed.

Lemma backtrace_cycle_never_returns_witness :
  Nat.iter 2 (read32 Examples.cyclic_stack) 0xF010FE00 = 0xF010FE00
  /\ mon_backtrace Examples.no_symbols 1000 Examples.cyclic_stack 0xF010FE00 = None.
Proof.
  split; [ reflexivity | ].
  apply (backtrace_cycle_never_returns Examples.no_symbols Examples.cyclic_stack
           0xF010FE00 1).
  - reflexivity.
  - intros i Hi. assert (Hcases : i = 0%nat \/ i = 1%nat) by lia.
    destruct Hcases as [-> | ->]; discriminate.
Defined.

(** ** StepController: sequences of commands *)

Module StepMore.

Lemma set_eflags_twice (t : Trapframe) (a b : Z) :
  set_eflags (set_eflags t a) b = set_eflags t b.
Proof. reflexivity. Qed.

Lemma from_user_debug_set_eflags (t : Trapframe) (fl : Z) :
  from_user_debug (Some (set_eflags t fl)) = from_user_debug (Some t).
Proof. reflexivity. Qed.

End StepMore.
Import StepMore.

(** X20. step and continue compose as setting and clearing one bit: the
    gate looks at the trap number and the code segment only, so a second
    command meets the same gate; continue after step is continue, step
    after step is step, continue after continue is continue, and, the
    saved flags being a 32-bit value, step after continue is step. *)
Theorem step_continue_sequences (tf : option Trapframe) :
  (forall t, tf = Some t -> 0 <= tf_eflags t < 2 ^ 32) ->
  mon_continue (snd (mon_step tf)) = mon_continue tf
  /\ mon_step (snd (mon_step tf)) = mon_step tf
  /\ mon_continue (snd (mon_continue tf)) = mon_continue tf
  /\ mon_step (snd (mon_continue tf)) = mon_step tf.
Proof.
  intros Hfl. destruct tf as [t|]; [ | repeat split ].
  specialize (Hfl t eq_refl).
  unfold mon_step, mon_continue.
  destruct (from_user_debug (Some t)) eqn:Hgate; cbn [negb snd option_map];
    rewrite ?from_user_debug_set_eflags, ?Hgate; cbn [negb option_map];
    [ | repeat split ].
  rewrite !set_eflags_twice. cbn [tf_eflags set_eflags].
  repeat split; do 3 f_equal; apply Z.bits_inj'; intros k Hk;
    repeat first [ rewrite Z.land_spec | rewrite Z.lor_spec ];
    rewrite ?testbit_TF by lia;
    (destruct (Z.ltb_spec k 32);
     [ rewrite ?testbit_not_TF by lia
     | rewrite ?(wrap32_high (Z.lnot FL_TF) k), ?(small_high 32 (tf_eflags t) k) by lia;
       replace (k =? 8) with false by (symmetry; apply Z.eqb_neq; lia) ]);
    destruct (Z.testbit (tf_eflags t) k), (k =? 8); reflexivity.
Qed.

Lemma step_continue_sequences_witness :
  mon_continue (snd (mon_step (Some (mkTrapframe 3 0x1B 0x202 []))))
  = mon_continue (Some (mkTrapframe 3 0x1B 0x202 []))
  /\ mon_step (snd (mon_step (Some (mkTrapframe 3 0x1B 0x202 []))))
     = mon_step (Some (mkTrapframe 3 0x1B 0x202 []))
  /\ mon_continue (snd (mon_continue (Some (mkTrapframe 3 0x1B 0x202 []))))
     = mon_continue (Some (mkTrapframe 3 0x1B 0x202 []))
  /\ mon_step (snd (mon_continue (Some (mkTrapframe 3 0x1B 0x202 []))))
     = mon_step (Some (mkTrapframe 3 0x1B 0x202 [])).
Proof.
  apply (step_continue_sequences (Some (mkTrapframe 3 0x1B 0x202 []))).
  intros t E. injection E as <-. cbn. lia.
Defined.

(** ** The command interpreter *)

Module RuncmdFacts.

Lemma gobble_length (buf : list ascii) : (length (gobble buf) <= length buf)%nat.
Proof.
  induction buf as [|c rest IH]; cbn [gobble]; [ lia | ].
  destruct (negb (Ascii.eqb c NUL) && strchr_ws c); cbn [length]; lia.
Qed.

(** Where the gobbling stops: at the end, at a NUL, or at a character
    that is no whitespace. *)
Lemma gobble_stops (buf : list ascii) (c : ascii) (rest : list ascii) :
  gobble buf = c :: rest -> Ascii.eqb c NUL = false -> arg_char c = true.
Proof.
  induction buf as [|x xs IH]; cbn [gobble]; [ discriminate | ].
  destruct (negb (Ascii.eqb x NUL) && strchr_ws x) eqn:E; [ exact IH | ].
  intros H Hnul. injection H as -> ->. unfold arg_char. rewrite Hnul in *.
  cbn [negb andb] in *. now rewrite E.
Qed.

Lemma gobble_idempotent (buf : list ascii) : gobble (gobble buf) = gobble buf.
Proof.
  induction buf as [|c rest IH]; [ reflexivity | ]. cbn [gobble].
  destruct (negb (Ascii.eqb c NUL) && strchr_ws c) eqn:E; [ exact IH | ].
  cbn [gobble]. now rewrite E.
Qed.

Lemma gobble_whitespace (w buf : list ascii) :
  forallb strchr_ws w = true -> gobble (w ++ buf) = gobble buf.
Proof.
  induction w as [|c w IH]; intros H; [ reflexivity | ].
  cbn [forallb] in H. apply andb_prop in H. destruct H as [Hc Hw].
  cbn [app gobble]. rewrite Hc.
  assert (Ascii.eqb c NUL = false) as ->.
  { destruct (Ascii.eqb_spec c NUL) as [-> | ]; [ discriminate Hc | reflexivity ]. }
  cbn [negb andb]. now apply IH.
Qed.

Lemma gobble_arg_char (c : ascii) (rest : list ascii) :
  arg_char c = true -> gobble (c :: rest) = c :: rest.
Proof.
  unfold arg_char. intros H. apply andb_prop in H. destruct H as [H1 H2].
  cbn [gobble]. rewrite H1. apply negb_true_iff in H2. now rewrite H2.
Qed.

(** What scanning past an argument yields: the argument characters up to
    the first NUL or whitespace, and the rest. *)
Lemma scan_arg_spec (buf : list ascii) :
  forall arg after, scan_arg buf = (arg, after) ->
    buf = arg ++ after /\ forallb arg_char arg = true
    /\ (length after <= length buf)%nat
    /\ match after with [] => True | c :: _ => arg_char c = false end.
Proof.
  induction buf as [|c rest IH]; intros arg after H; cbn [scan_arg] in H.
  - injection H as <- <-. repeat split. cbn. lia.
  - fold (arg_char c) in H. destruct (arg_char c) eqn:Hc.
    + destruct (scan_arg rest) as [arg' after'] eqn:E. injection H as <- <-.
      destruct (IH _ _ eq_refl) as (-> & Hall & Hlen & Hstop).
      repeat split; [ cbn [forallb]; now rewrite Hc | cbn [length]; lia | exact Hstop ].
    + injection H as <- <-. repeat split; [ cbn; lia | exact Hc ].
Qed.

Lemma scan_arg_word (a rest : list ascii) :
  forallb arg_char a = true ->
  match rest with [] => True | c :: _ => arg_char c = false end ->
  scan_arg (a ++ rest) = (a, rest).
Proof.
  intros Ha Hrest. induction a as [|c a IH]; cbn [app].
  - destruct rest as [|c rest]; [ reflexivity | ]. cbn [scan_arg].
    fold (arg_char c). now rewrite Hrest.
  - cbn [forallb] in Ha. apply andb_prop in Ha. destruct Ha as [Hc Ha].
    cbn [scan_arg]. fold (arg_char c). now rewrite Hc, IH.
Qed.

(** The loop starts by gobbling, so gobbled input changes nothing. *)
Lemma parse_loop_gobble (fuel : nat) (buf : list ascii) (argv : list (list ascii)) :
  parse_loop fuel (gobble buf) argv = parse_loop fuel buf argv.
Proof. destruct fuel; [ reflexivity | ]. cbn [parse_loop]. now rewrite gobble_idempotent. Qed.

(** With more fuel than the line has characters the loop returns, and the
    same whatever the excess. *)
Lemma parse_loop_fuel (fuel : nat) :
  forall fuel' buf argv,
    (length buf < fuel)%nat -> (length buf < fuel')%nat ->
    parse_loop fuel buf argv = parse_loop fuel' buf argv
    /\ parse_loop fuel buf argv <> None.
Proof.
  induction fuel as [|fuel IH]; intros fuel' buf argv H H'; [ lia | ].
  destruct fuel' as [|fuel']; [ lia | ]. cbn [parse_loop].
  pose proof (gobble_length buf) as Hg.
  destruct (gobble buf) as [|c rest] eqn:E; [ split; [ reflexivity | discriminate ] | ].
  destruct (Ascii.eqb c NUL) eqn:Hnul; [ split; [ reflexivity | discriminate ] | ].
  destruct (Nat.eqb (length argv) (MAXARGS - 1)); [ split; [ reflexivity | discriminate ] | ].
  destruct (scan_arg (c :: rest)) as [arg after] eqn:Es.
  pose proof (gobble_stops buf c rest E Hnul) as Hc.
  cbn [scan_arg] in Es. fold (arg_char c) in Es. rewrite Hc in Es.
  destruct (scan_arg rest) as [arg' after'] eqn:Er. injection Es as <- <-.
  destruct (scan_arg_spec rest _ _ Er) as (_ & _ & Hlen & _).
  cbn [length] in Hg. apply IH; lia.
Qed.

(** Arguments already found stay, and every argument found is well formed;
    there are never more than MAXARGS - 1 of them. *)
Lemma parse_loop_args (fuel : nat) :
  forall buf argv res,
    parse_loop fuel buf argv = Some (Parsed res) ->
    forallb is_arg argv = true -> (length argv <= MAXARGS - 1)%nat ->
    forallb is_arg res = true /\ (length res <= MAXARGS - 1)%nat
    /\ (length argv <= length res)%nat.
Proof.
  induction fuel as [|fuel IH]; intros buf argv res H Hargs Hlen; [ discriminate H | ].
  cbn [parse_loop] in H.
  destruct (gobble buf) as [|c rest] eqn:E; [ injection H as <-; auto | ].
  destruct (Ascii.eqb c NUL) eqn:Hnul; [ injection H as <-; auto | ].
  destruct (Nat.eqb_spec (length argv) (MAXARGS - 1)) as [|Hne]; [ discriminate H | ].
  destruct (scan_arg (c :: rest)) as [arg after] eqn:Es.
  pose proof (gobble_stops buf c rest E Hnul) as Hc.
  destruct (scan_arg_spec _ _ _ Es) as (_ & Hall & _ & _).
  assert (Harg : is_arg arg = true).
  { unfold is_arg. rewrite Hall, andb_true_r.
    cbn [scan_arg] in Es. fold (arg_char c) in Es. rewrite Hc in Es.
    destruct (scan_arg rest). injection Es as <- <-. reflexivity. }
  destruct (IH _ _ _ H) as (Hres & Hl & Hmono).
  - rewrite forallb_app, Hargs. cbn [forallb]. now rewrite Harg.
  - rewrite length_app. cbn [length]. lia.
  - rewrite length_app in Hmono. cbn [length] in Hmono. repeat split; [ assumption | lia .. ].
Qed.

End RuncmdFacts.
Import RuncmdFacts.

Module RuncmdJoin.

Lemma is_arg_head (a : list ascii) :
  is_arg a = true ->
  exists c a', a = c :: a' /\ arg_char c = true /\ forallb arg_char a = true.
Proof.
  unfold is_arg. intros H. apply andb_prop in H. destruct H as [Hne Hall].
  destruct a as [|c a']; [ discriminate Hne | ].
  exists c, a'. split; [ reflexivity | ]. split; [ | exact Hall ].
  cbn [forallb] in Hall. now apply andb_prop in Hall.
Qed.

Lemma arg_char_not_NUL (c : ascii) : arg_char c = true -> Ascii.eqb c NUL = false.
Proof.
  unfold arg_char. intros H. apply andb_prop in H. destruct H as [H _].
  now apply negb_true_iff in H.
Qed.

Lemma parse_loop_blank (fuel : nat) (buf : list ascii) (argv : list (list ascii)) :
  parse_loop fuel (" "%char :: buf) argv = parse_loop fuel buf argv.
Proof.
  rewrite <- (parse_loop_gobble fuel (" "%char :: buf)).
  change (gobble (" "%char :: buf)) with (gobble buf). apply parse_loop_gobble.
Qed.

(** One turn of the loop on a line that starts with a well-formed word. *)
Lemma parse_loop_word (fuel : nat) (a rest : list ascii) (argv : list (list ascii)) :
  is_arg a = true ->
  match rest with [] => True | c :: _ => arg_char c = false end ->
  parse_loop (S fuel) (a ++ rest) argv
  = if Nat.eqb (length argv) (MAXARGS - 1) then Some TooMany
    else parse_loop fuel rest (argv ++ [a]).
Proof.
  intros Ha Hrest. destruct (is_arg_head a Ha) as (c & a' & -> & Hc & Hall).
  cbn [parse_loop]. cbn [app]. rewrite (gobble_arg_char c _ Hc).
  rewrite (arg_char_not_NUL c Hc).
  destruct (Nat.eqb (length argv) (MAXARGS - 1)); [ reflexivity | ].
  change (c :: a' ++ rest) with ((c :: a') ++ rest).
  now rewrite (scan_arg_word (c :: a') rest Hall Hrest).
Qed.

Lemma join_args_cons (a : list ascii) (rest : list (list ascii)) :
  join_args (a :: rest)
  = a ++ match rest with [] => [] | _ => " "%char :: join_args rest end.
Proof. destruct rest; cbn [join_args]; [ now rewrite app_nil_r | reflexivity ]. Qed.

(** A line of at most fifteen well-formed words, separated by single
    blanks, is split into exactly these words. *)
Lemma parse_join (args : list (list ascii)) :
  forall argv fuel,
    forallb is_arg args = true ->
    (length argv + length args <= MAXARGS - 1)%nat ->
    (length (join_args args) < fuel)%nat ->
    parse_loop fuel (join_args args) argv = Some (Parsed (argv ++ args)).
Proof.
  induction args as [|a rest IH]; intros argv fuel Hargs Hlen Hfuel;
    (destruct fuel as [|fuel]; [ lia | ]).
  - cbn. now rewrite app_nil_r.
  - cbn [forallb] in Hargs. apply andb_prop in Hargs. destruct Hargs as [Ha Hrest].
    rewrite join_args_cons in Hfuel |- *. cbn [length] in Hlen.
    rewrite parse_loop_word; [ | exact Ha | now destruct rest ].
    destruct (Nat.eqb_spec (length argv) (MAXARGS - 1)) as [E|_]; [ lia | ].
    rewrite length_app in Hfuel. destruct (is_arg_head a Ha) as (c & a' & -> & _).
    cbn [length] in Hfuel.
    destruct rest as [|b rest'].
    + destruct fuel as [|fuel]; [ lia | ]. reflexivity.
    + rewrite parse_loop_blank. cbn [length] in Hfuel.
      rewrite IH; [ | exact Hrest | rewrite length_app; cbn [length] in *; lia | lia ].
      now rewrite <- app_assoc.
Qed.

(** With sixteen or more words the loop gives up. *)
Lemma parse_join_too_many (args : list (list ascii)) :
  forall argv fuel,
    forallb is_arg args = true ->
    (length argv <= MAXARGS - 1)%nat ->
    (MAXARGS <= length argv + length args)%nat ->
    (length (join_args args) < fuel)%nat ->
    parse_loop fuel (join_args args) argv = Some TooMany.
Proof.
  induction args as [|a rest IH]; intros argv fuel Hargs Hlen Hmany Hfuel;
    (destruct fuel as [|fuel]; [ lia | ]).
  - cbn [length] in Hmany. unfold MAXARGS in *. lia.
  - cbn [forallb] in Hargs. apply andb_prop in Hargs. destruct Hargs as [Ha Hrest].
    rewrite join_args_cons in Hfuel |- *. cbn [length] in Hmany.
    rewrite parse_loop_word; [ | exact Ha | now destruct rest ].
    destruct (Nat.eqb_spec (length argv) (MAXARGS - 1)) as [E|Hne]; [ reflexivity | ].
    rewrite length_app in Hfuel. destruct (is_arg_head a Ha) as (c & a' & -> & _).
    cbn [length] in Hfuel.
    destruct rest as [|b rest']; [ cbn [length] in Hmany; unfold MAXARGS in *; lia | ].
    rewrite parse_loop_blank. cbn [length] in Hfuel.
    apply IH; [ exact Hrest | | | lia ];
      rewrite length_app; cbn [length] in *; unfold MAXARGS in *; lia.
Qed.

End RuncmdJoin.
Import RuncmdJoin.

(** X21. runcmd returns for every line, and whenever it calls a command
    the command gets between 1 and MAXARGS - 1 = 15 arguments, argc
    counting them, none of them empty and none containing whitespace or
    NUL, the first being the name under which the command table lists the
    function called. *)
Theorem runcmd_arguments (buf : list ascii) :
  runcmd buf <> None
  /\ forall f argc argv,
       runcmd buf = Some (Invoke f argc argv) ->
       argc = length argv /\ (1 <= argc <= 15)%nat
       /\ forallb is_arg argv = true
       /\ exists name rest,
            argv = name :: rest
            /\ lookup_command (string_of_list_ascii name) commands = Some f.
Proof.
  unfold runcmd.
  destruct (parse_loop_fuel (S (length buf)) (S (length buf)) buf [])
    as [_ Hsome]; [ lia | lia | ].
  destruct (parse_loop (S (length buf)) buf []) as [[res|]|] eqn:E;
    [ | split; [ discriminate | discriminate ] | contradiction ].
  destruct (parse_loop_args _ _ _ _ E) as (Hargs & Hlen & _); [ reflexivity | cbn; lia | ].
  destruct res as [|name args]; [ split; discriminate | ].
  destruct (lookup_command (string_of_list_ascii name) commands) as [g|] eqn:El;
    (split; [ discriminate | ]); intros f argc argv H; [ | discriminate H ].
  injection H as <- <- <-. split; [ reflexivity | ].
  split; [ cbn [length] in *; unfold MAXARGS in Hlen; lia | ].
  split; [ exact Hargs | ]. now exists name, args.
Qed.

Lemma runcmd_arguments_witness :
  2%nat = length [list_ascii_of_string "showmap"; list_ascii_of_string "0x1000"]
  /\ (1 <= 2 <= 15)%nat
  /\ forallb is_arg [list_ascii_of_string "showmap"; list_ascii_of_string "0x1000"] = true
  /\ exists name rest,
       [list_ascii_of_string "showmap"; list_ascii_of_string "0x1000"] = name :: rest
       /\ lookup_command (string_of_list_ascii name) commands = Some Showmap_.
Proof.
  apply (proj2 (runcmd_arguments (list_ascii_of_string " showmap   0x1000 "))).
  reflexivity.
Defined.

(** X22. Splitting undoes joining: a line made of at most fifteen
    well-formed words separated by single blanks is dispatched with
    exactly these words as argv; the first word selects the command, and
    a first word the table does not list gives "Unknown command" with
    that word. *)
Theorem runcmd_join (name : list ascii) (args : list (list ascii)) :
  forallb is_arg (name :: args) = true ->
  (length (name :: args) <= 15)%nat ->
  runcmd (join_args (name :: args))
  = Some match lookup_command (string_of_list_ascii name) commands with
         | Some f => Invoke f (length (name :: args)) (name :: args)
         | None => UnknownCommand name
         end.
Proof.
  intros Hargs Hlen. unfold runcmd.
  rewrite (parse_join (name :: args) []); [ | exact Hargs | cbn [length] in *; cbn; lia | lia ].
  cbn [app]. now destruct (lookup_command (string_of_list_ascii name) commands).
Qed.

Lemma runcmd_join_witness :
  runcmd (join_args [list_ascii_of_string "setperm"; list_ascii_of_string "0x1000";
                     list_ascii_of_string "WU"])
  = Some match lookup_command
                 (string_of_list_ascii (list_ascii_of_string "setperm")) commands with
         | Some f => Invoke f 3 [list_ascii_of_string "setperm";
                                 list_ascii_of_string "0x1000";
                                 list_ascii_of_string "WU"]
         | None => UnknownCommand (list_ascii_of_string "setperm")
         end.
Proof.
  apply (runcmd_join (list_ascii_of_string "setperm")
           [list_ascii_of_string "0x1000"; list_ascii_of_string "WU"]).
  - reflexivity.
  - cbn. lia.
Defined.

(** X23. A line of sixteen or more words is refused as a whole: runcmd
    prints "Too many arguments" and calls no command, even when the first
    word names one. *)
Theorem runcmd_too_many (args : list (list ascii)) :
  forallb is_arg args = true -> (16 <= length args)%nat ->
  runcmd (join_args args) = Some TooManyArguments.
Proof.
  intros Hargs Hlen. unfold runcmd.
  rewrite (parse_join_too_many args []); [ reflexivity | exact Hargs | cbn; lia | | lia ].
  unfold MAXARGS. cbn [length]. lia.
Qed.

Lemma runcmd_too_many_witness :
  runcmd (join_args (list_ascii_of_string "help"
                     :: repeat (list_ascii_of_string "x") 15))
  = Some TooManyArguments.
Proof.
  apply (runcmd_too_many (list_ascii_of_string "help"
                          :: repeat (list_ascii_of_string "x") 15)).
  - reflexivity.
  - cbn. lia.
Defined.

(** X24. Whitespace before the first word does not matter, and a line of
    whitespace only does nothing: runcmd returns 0 without calling a
    command or printing. *)
Theorem runcmd_leading_whitespace (w buf : list ascii) :
  forallb strchr_ws w = true ->
  runcmd (w ++ buf) = runcmd buf /\ runcmd w = Some Nothing.
Proof.
  intros Hw.
  assert (Hpre : forall b, parse_loop (S (length (w ++ b))) (w ++ b) []
                           = parse_loop (S (length b)) b []).
  { intros b.
    rewrite <- (parse_loop_gobble _ (w ++ b)), gobble_whitespace by exact Hw.
    rewrite parse_loop_gobble.
    apply parse_loop_fuel; rewrite ?length_app; lia. }
  split.
  - unfold runcmd. now rewrite Hpre.
  - unfold runcmd. rewrite <- (app_nil_r w) at 1 2. now rewrite Hpre.
Qed.

Lemma runcmd_leading_whitespace_witness :
  runcmd (list_ascii_of_string "   " ++ list_ascii_of_string "kerninfo")
  = runcmd (list_ascii_of_string "kerninfo")
  /\ runcmd (list_ascii_of_string "   ") = Some Nothing.
Proof. apply runcmd_leading_whitespace. reflexivity. Defined.

(** X25. The command table shadows no entry and help tells the truth:
    every entry of the table is reached by the lookup under its own name
    and gives its own function, and a word is dispatched to a command
    exactly when help lists it. *)
Theorem commands_table_consistent :
  (forall name desc f,
     In (name, desc, f) commands -> lookup_command name commands = Some f)
  /\ (forall name,
        lookup_command name commands <> None <-> In name (map fst (fst mon_help)))
  /\ snd mon_help = 0.
Proof.
  split; [ | split; [ | reflexivity ] ].
  - intros name desc f H. unfold commands in H. cbn [In] in H.
    repeat (destruct H as [H | H]; [ injection H as <- <- <-; reflexivity | ]).
    contradiction.
  - intros name. unfold mon_help. cbn [fst]. rewrite map_map. cbn [fst snd].
    assert (Hgen : forall table,
              lookup_command name table <> None
              <-> In name (map (fun e : string * string * handler => fst (fst e)) table)).
    { induction table as [|[[n d] f] rest IH]; cbn [lookup_command map In fst].
      - tauto.
      - destruct (String.eqb_spec name n) as [-> | Hne].
        + split; [ now left | discriminate ].
        + rewrite IH. split; [ now right | intros [E | H]; [ congruence | exact H ] ]. }
    apply Hgen.
Qed.

(** ** The colour test *)

Module RainbowFacts.

Lemma shifted_colour (n i s : Z) :
  0 <= i < n -> 1 <= s < n ->
  (i + s) mod n <> i /\ 0 <= (i + s) mod n < n.
Proof.
  intros Hi Hs. split; [ | apply Z.mod_pos_bound; lia ].
  destruct (Z.lt_ge_cases (i + s) n) as [Hlt | Hge].
  - rewrite Z.mod_small by lia. lia.
  - replace (i + s) with ((i + s - n) + 1 * n) by lia.
    rewrite Z.mod_add, Z.mod_small by lia. lia.
Qed.

Lemma in_map_seqZ {A} (f : Z -> A) (a n : Z) (x : A) :
  In x (map f (seqZ a n)) -> exists i, a <= i < a + n /\ x = f i.
Proof.
  intros H. apply in_map_iff in H. destruct H as (i & <- & Hin).
  apply list_elem_of_In, elem_of_seqZ in Hin. now exists i.
Qed.

End RainbowFacts.
Import RainbowFacts.

(** X26. The colour test never hides a character: for every number of
    colours, mon_rainbow prints COLOR_NUM - 1 lines of COLOR_NUM cells
    each and returns 0, and in every cell the foreground and the
    background are two different colours of the palette. *)
Theorem rainbow_visible (COLOR_NUM : Z) :
  1 <= COLOR_NUM ->
  snd (mon_rainbow COLOR_NUM) = 0
  /\ length (fst (mon_rainbow COLOR_NUM)) = Z.to_nat (COLOR_NUM - 1)
  /\ forall line, In line (fst (mon_rainbow COLOR_NUM)) ->
       length line = Z.to_nat COLOR_NUM
       /\ forall c, In c line ->
            fg c <> bg c /\ 0 <= fg c < COLOR_NUM /\ 0 <= bg c < COLOR_NUM.
Proof.
  intros Hn. unfold mon_rainbow. cbn [fst snd]. split; [ reflexivity | ].
  split; [ now rewrite length_map, length_seqZ | ].
  intros line Hline. apply in_map_seqZ in Hline. destruct Hline as (s & Hs & ->).
  unfold rainbow. split; [ now rewrite length_map, length_seqZ | ].
  intros c Hc. apply in_map_seqZ in Hc. destruct Hc as (i & Hi & ->).
  cbn [fg bg]. destruct (shifted_colour COLOR_NUM i s) as [Hne Hb]; [ lia | lia | ].
  split; [ congruence | ]. split; [ lia | exact Hb ].
Qed.

Lemma rainbow_visible_witness :
  snd (mon_rainbow 8) = 0
  /\ length (fst (mon_rainbow 8)) = Z.to_nat (8 - 1)
  /\ forall line, In line (fst (mon_rainbow 8)) ->
       length line = Z.to_nat 8
       /\ forall c, In c line -> fg c <> bg c /\ 0 <= fg c < 8 /\ 0 <= bg c < 8.
Proof. apply (rainbow_visible 8). discriminate. Defined.
